(** * Road-accident resource allocation: the model behind [OFS_CODE.py]

    The script reads a table of districts, scores every district with a
    weighted severity, builds an integer linear program with pulp, solves
    it, and derives an impact table from the variable values.

    Modelling choices.
    - A pandas [DataFrame] read from the CSV is a list of rows; the index is
      the default [RangeIndex], so row labels are the positions [0 .. n-1].
      A [Series] is the list of its values in index order.  Every table of
      this type has the four columns the script reads, so the check for a
      District column (lines 10-11) always passes.
    - The count columns are integer columns.  A numpy [float64] is modelled
      by an exact rational extended with the IEEE special values
      [+inf], [-inf] and [NaN]; rounding and the sign of zero are abstracted
      away.  Division follows numpy: [n/0] is an infinity, [0/0] is [NaN],
      and no exception is raised.
    - pulp expressions are lists of terms and the problem object is threaded
      through the statements of the script in a state-and-exception monad.
      What pulp does with a coefficient that is not a finite number is not
      modelled; statements about a complete run are made for tables whose
      severities are finite.
    - [DataFrame.sort_values] and the CBC solver are library code: they are
      variables of the development and only their contracts are assumed.
      The script calls [sort_values] with the default algorithm, which
      pandas does not document as stable; what that algorithm does with
      tied rows is followed in a model of numpy's scalar quicksort under
      pandas' [nargsort].  The solver leaves an integer value in every
      variable, whatever status it reports. *)

From Stdlib Require Import ZArith QArith Qreduction Lqa Lia.
From Stdlib Require Import String Bool List Permutation Sorted.
From Stdlib Require Import DecimalString DecimalNat SpecFloat.
Import ListNotations.

Local Open Scope Z_scope.

(** ** numpy [float64], idealised *)

Module Float64.

Inductive float64 : Type :=
| Fin (q : Q)
| PInf
| NInf
| NaN.

Definition of_int (z : Z) : float64 := Fin (inject_Z z).

Definition isnan (a : float64) : bool :=
  match a with NaN => true | _ => false end.

Definition isfinite (a : float64) : bool :=
  match a with Fin _ => true | _ => false end.

(** Sign of a rational, as the three-way comparison with zero. *)
Definition Qsign (q : Q) : comparison := (q ?= 0)%Q.

Definition signed_inf (s : comparison) : float64 :=
  match s with Gt => PInf | Lt => NInf | Eq => NaN end.

Definition fneg_sign (s : comparison) : comparison := CompOpp s.

Definition fadd (a b : float64) : float64 :=
  match a, b with
  | NaN, _ | _, NaN => NaN
  | PInf, NInf | NInf, PInf => NaN
  | PInf, _ | _, PInf => PInf
  | NInf, _ | _, NInf => NInf
  | Fin p, Fin q => Fin (Qred (p + q))
  end.

Definition fmul (a b : float64) : float64 :=
  match a, b with
  | NaN, _ | _, NaN => NaN
  | Fin p, Fin q => Fin (Qred (p * q))
  | Fin p, PInf | PInf, Fin p => signed_inf (Qsign p)
  | Fin p, NInf | NInf, Fin p => signed_inf (fneg_sign (Qsign p))
  | PInf, PInf | NInf, NInf => PInf
  | PInf, NInf | NInf, PInf => NInf
  end.

Definition fdiv (a b : float64) : float64 :=
  match a, b with
  | NaN, _ | _, NaN => NaN
  | Fin p, Fin q =>
      match Qsign q with
      | Eq => signed_inf (Qsign p)
      | _ => Fin (Qred (p / q))
      end
  | Fin _, PInf | Fin _, NInf => Fin 0
  | PInf, Fin q =>
      match Qsign q with Lt => NInf | _ => PInf end
  | NInf, Fin q =>
      match Qsign q with Lt => PInf | _ => NInf end
  | PInf, PInf | PInf, NInf | NInf, PInf | NInf, NInf => NaN
  end.

(** [a <= b] on values that are not [NaN]; false as soon as one is [NaN]. *)
Definition fle (a b : float64) : bool :=
  match a, b with
  | NaN, _ | _, NaN => false
  | NInf, _ => true
  | _, PInf => true
  | Fin p, Fin q => Qle_bool p q
  | _, _ => false
  end.

(** [Series.max()] skips [NaN] (skipna=True) and is [NaN] on a series
    without any other value. *)
Definition fmax_skipna (a b : float64) : float64 :=
  match a, b with
  | NaN, _ => b
  | _, NaN => a
  | _, _ => if fle a b then b else a
  end.

Definition Series_max (s : list float64) : float64 :=
  fold_right fmax_skipna NaN s.

(** Element-wise arithmetic of two series on the same index. *)
Fixpoint Series_zip (op : float64 -> float64 -> float64)
  (s t : list float64) : list float64 :=
  match s, t with
  | a :: s', b :: t' => op a b :: Series_zip op s' t'
  | _, _ => []
  end.

Definition Series_add := Series_zip fadd.
Definition Series_mul := Series_zip fmul.

Definition scalar_mul (c : float64) (s : list float64) : list float64 :=
  map (fmul c) s.

Definition div_scalar (s : list float64) (d : float64) : list float64 :=
  map (fun a => fdiv a d) s.

(** [v] is the finite number [q]. *)
Definition is_fin (v : float64) (q : Q) : Prop :=
  exists q', v = Fin q' /\ (q' == q)%Q.

End Float64.
Import Float64.

(** ** The input table *)

Record Row : Type := mkRow {
  District : string;
  Accidents : Z;
  Killed : Z;
  Injured : Z
}.

Definition DataFrame := list Row.

(** [df.index] of a freshly read table. *)
Definition index (df : DataFrame) : list nat := seq 0 (length df).

(** An integer column as the float series it becomes under [/]. *)
Definition column (f : Row -> Z) (df : DataFrame) : list float64 :=
  map (fun r => of_int (f r)) df.

(** ** Severity Scorer (lines 14-20) *)

Definition w_killed : float64 := Fin (5 # 10).
Definition w_injured : float64 := Fin (3 # 10).
Definition w_accidents : float64 := Fin (2 # 10).

(** [df[c] / df[c].max()] *)
Definition sub_score (f : Row -> Z) (df : DataFrame) : list float64 :=
  div_scalar (column f df) (Series_max (column f df)).

Definition Weighted_Severity (df : DataFrame) : list float64 :=
  Series_add
    (Series_add (scalar_mul w_killed (sub_score Killed df))
                (scalar_mul w_injured (sub_score Injured df)))
    (scalar_mul w_accidents (sub_score Accidents df)).

(** ** pulp: variables, expressions, constraints, problem *)

Inductive VarFamily : Type := Police | Awareness.

(** [LpVariable.dicts(name, df.index, lowBound=0, cat=LpInteger)]: one
    integer variable per row label, named [name_i]. *)
Record LpVariable : Type := mkVar {
  family : VarFamily;
  key : nat;
  lowBound : Z
}.

Definition LpVariable_dicts (name : VarFamily) (lb : Z) : nat -> LpVariable :=
  fun i => mkVar name i lb.

(** A linear expression is the list of its terms; the coefficient type is
    [Z] in constraints and [float64] in the objective. *)
Definition LpAffineExpression (C : Type) : Type := list (C * LpVariable).

Definition term {C : Type} (c : C) (v : LpVariable) : LpAffineExpression C :=
  [(c, v)].

Definition var (v : LpVariable) : LpAffineExpression Z := term 1 v.

Definition eplus {C : Type} (e1 e2 : LpAffineExpression C) :
  LpAffineExpression C := e1 ++ e2.

Definition lpSum {C : Type} (es : list (LpAffineExpression C)) :
  LpAffineExpression C := concat es.

Inductive Sense : Type := LpConstraintLE | LpConstraintGE.

Record LpConstraint : Type := mkConstraint {
  lhs : LpAffineExpression Z;
  sense : Sense;
  rhs : Z;
  cname : string
}.

Notation "e '<==' b ',,' n" := (mkConstraint e LpConstraintLE b n)
  (at level 70, b at next level, n at next level).
Notation "e '>==' b ',,' n" := (mkConstraint e LpConstraintGE b n)
  (at level 70, b at next level, n at next level).

Record LpProblem : Type := mkProblem {
  objective : LpAffineExpression float64;
  constraints : list LpConstraint
}.

(** [LpProblem(name, LpMaximize)] *)
Definition new_problem : LpProblem := mkProblem [] [].

Inductive LpStatus : Type :=
| LpStatusOptimal
| LpStatusNotSolved
| LpStatusInfeasible
| LpStatusUnbounded
| LpStatusUndefined.

(** What [model.solve] leaves behind: the status and a value in every
    variable. *)
Record Solution : Type := mkSolution {
  status : LpStatus;
  varValue : LpVariable -> Z
}.

Definition eval (v : LpVariable -> Z) (e : LpAffineExpression Z) : Z :=
  fold_right (fun t acc => fst t * v (snd t) + acc) 0 e.

Definition satisfies (v : LpVariable -> Z) (c : LpConstraint) : bool :=
  match sense c with
  | LpConstraintLE => eval v (lhs c) <=? rhs c
  | LpConstraintGE => rhs c <=? eval v (lhs c)
  end.

Definition within_bounds (v : LpVariable -> Z) (c : LpConstraint) : bool :=
  forallb (fun t => lowBound (snd t) <=? v (snd t)) (lhs c).

Definition feasible (v : LpVariable -> Z) (m : LpProblem) : bool :=
  forallb (fun c => satisfies v c && within_bounds v c) (constraints m).

(** ** Exceptions and the script monad *)

Record exn : Type := Exception {
  exn_class : string;
  exn_msg : string
}.

Inductive result (A : Type) : Type :=
| Ok (a : A)
| Raise (e : exn).
Arguments Ok {A} a.
Arguments Raise {A} e.

(** A statement of the script: it may update the problem object or raise. *)
Definition Script (A : Type) : Type := LpProblem -> result (A * LpProblem).

Definition ret {A : Type} (a : A) : Script A := fun m => Ok (a, m).

Definition bind {A B : Type} (s : Script A) (k : A -> Script B) : Script B :=
  fun m =>
    match s m with
    | Ok (a, m') => k a m'
    | Raise e => Raise e
    end.

Definition raise {A : Type} (e : exn) : Script A := fun _ => Raise e.

Notation "x <- s ;; k" := (bind s (fun x => k))
  (at level 61, s at next level, right associativity).
Notation "s ;; k" := (bind s (fun _ => k))
  (at level 61, right associativity).

(** The problem object as it stands. *)
Definition current_problem : Script LpProblem := fun m => Ok (m, m).

(** [model += expression] *)
Definition set_objective (e : LpAffineExpression float64) : Script unit :=
  fun m => Ok (tt, mkProblem e (constraints m)).

(** [model += constraint, name] *)
Definition add_constraint (c : LpConstraint) : Script unit :=
  fun m => Ok (tt, mkProblem (objective m) (constraints m ++ [c])).

Fixpoint for_each {A : Type} (l : list A) (body : A -> Script unit) :
  Script unit :=
  match l with
  | [] => ret tt
  | a :: l' => body a ;; for_each l' body
  end.

Definition IndexError : exn :=
  Exception "IndexError" "index 0 is out of bounds for axis 0 with size 0".

(** [labels[0]] *)
Definition first_label (labels : list nat) : Script nat :=
  match labels with
  | [] => raise IndexError
  | i :: _ => ret i
  end.

(** ** Policy constants (lines 29-37) *)

Definition cost_x : Z := 5.
Definition cost_z : Z := 2.
Definition budget : Z := 1800.
Definition X_max : Z := 250.
Definition Z_max : Z := 350.
Definition District_Limit : Z := 30.

Definition str (i : nat) : string := NilEmpty.string_of_uint (Nat.to_uint i).

(** ** Model Builder (lines 23-67) *)

Definition x : nat -> LpVariable := LpVariable_dicts Police 0.
Definition z : nat -> LpVariable := LpVariable_dicts Awareness 0.

(** [df.loc[i, col]] *)
Definition loc (col : list float64) (i : nat) : float64 := nth i col NaN.

(** Labels of [df[df['District'] == 'Jaipur']]. *)
Definition jaipur_labels (df : DataFrame) : list nat :=
  map fst
    (filter (fun p => String.eqb (District (snd p)) "Jaipur")
       (combine (index df) df)).

Definition excluding (j : nat) (l : list nat) : list nat :=
  filter (fun i => negb (Nat.eqb i j)) l.

(** The objective and the constraints, under the names the script gives
    them. *)
Definition severity_objective (df : DataFrame) (a c : list float64) :
  LpAffineExpression float64 :=
  lpSum (map (fun i => eplus (term (loc a i) (x i)) (term (loc c i) (z i)))
           (index df)).

Definition Budget_Limit (df : DataFrame) : LpConstraint :=
  lpSum (map (fun i => eplus (term cost_x (x i)) (term cost_z (z i)))
           (index df)) <== budget ,, "Budget_Limit".

Definition Max_Police (df : DataFrame) : LpConstraint :=
  lpSum (map (fun i => var (x i)) (index df)) <== X_max ,, "Max_Police".

Definition Max_Awareness (df : DataFrame) : LpConstraint :=
  lpSum (map (fun i => var (z i)) (index df)) <== Z_max ,, "Max_Awareness".

Definition Top5_Min_Resource (i : nat) : LpConstraint :=
  eplus (var (x i)) (var (z i)) >== 1 ,, "Top5_Min_Resource_" ++ str i.

Definition Top5_Max_Resource (i : nat) : LpConstraint :=
  eplus (var (x i)) (var (z i)) <== District_Limit ,,
    "Top5_Max_Resource_" ++ str i.

Definition Jaipur_Max_Police (jaipur_idx : nat) : LpConstraint :=
  var (x jaipur_idx) <== 50 ,, "Jaipur_Max_Police".

Definition Jaipur_Max_Awareness (jaipur_idx : nat) : LpConstraint :=
  var (z jaipur_idx) <== 40 ,, "Jaipur_Max_Awareness".

Definition Jaipur_Min_Police (jaipur_idx : nat) : LpConstraint :=
  var (x jaipur_idx) >== 40 ,, "Jaipur_Min_Police".

Definition Jaipur_Min_Awareness (jaipur_idx : nat) : LpConstraint :=
  var (z jaipur_idx) >== 30 ,, "Jaipur_Min_Awareness".

Definition Max_Police_Per_District (i : nat) : LpConstraint :=
  var (x i) <== 50 ,, "Max_Police_Per_District_" ++ str i.

Definition Max_Awareness_Per_District (i : nat) : LpConstraint :=
  var (z i) <== 40 ,, "Max_Awareness_Per_District_" ++ str i.

(** [df[col].sum()] of an integer column. *)
Definition Series_sum (s : list Z) : Z := fold_right Z.add 0 s.

Section Script.

(** [df.sort_values(by=col, ascending=False).index.tolist()], given the
    values of the column. *)
Variable sort_values_desc : list float64 -> list nat.

(** [model.solve(PULP_CBC_CMD(msg=0))] *)
Variable solve : LpProblem -> Solution.

(** Lines 14-20: the scorer hands the severity column on; nothing in it
    raises. *)
Definition score (df : DataFrame) : Script (list float64) :=
  ret (Weighted_Severity df).

Definition top5 (severity : list float64) : list nat :=
  firstn 5 (sort_values_desc severity).

Definition top5_excluding_jaipur (severity : list float64)
  (jaipur_idx : nat) : list nat :=
  excluding jaipur_idx (top5 severity).

Definition build_model (df : DataFrame) (severity : list float64) :
  Script unit :=
  let a := severity in
  let c := severity in
  set_objective (severity_objective df a c) ;;
  add_constraint (Budget_Limit df) ;;
  add_constraint (Max_Police df) ;;
  add_constraint (Max_Awareness df) ;;
  jaipur_idx <- first_label (jaipur_labels df) ;;
  for_each (top5_excluding_jaipur severity jaipur_idx) (fun i =>
    add_constraint (Top5_Min_Resource i) ;;
    add_constraint (Top5_Max_Resource i)) ;;
  add_constraint (Jaipur_Max_Police jaipur_idx) ;;
  add_constraint (Jaipur_Max_Awareness jaipur_idx) ;;
  add_constraint (Jaipur_Min_Police jaipur_idx) ;;
  add_constraint (Jaipur_Min_Awareness jaipur_idx) ;;
  for_each (index df) (fun i =>
    add_constraint (Max_Police_Per_District i) ;;
    add_constraint (Max_Awareness_Per_District i)).

(** ** Solver call and Result Aggregator (lines 70-82) *)

(** The columns the script adds to [df], and the row order of
    [df_sorted]. *)
Record Output : Type := mkOutput {
  Police_Allocated : list Z;
  Awareness_Campaigns : list Z;
  Total_Impact_Score : list float64;
  Normalized_Impact : list float64;
  df_sorted : list nat
}.

Definition collect_results (df : DataFrame) (severity : list float64)
  (sol : Solution) : Output :=
  let a := severity in
  let c := severity in
  let police := map (fun i => varValue sol (x i)) (index df) in
  let awareness := map (fun i => varValue sol (z i)) (index df) in
  let impact :=
    Series_add (Series_mul (map of_int police) a)
               (Series_mul (map of_int awareness) c) in
  let normalized :=
    div_scalar (scalar_mul (Fin 100) impact) (Series_max impact) in
  mkOutput police awareness impact normalized (sort_values_desc impact).

(** The script from the model definition to the result table. *)
Definition main (df : DataFrame) : Script Output :=
  severity <- score df ;;
  build_model df severity ;;
  model <- current_problem ;;
  ret (collect_results df severity (solve model)).

Definition run_script (df : DataFrame) : result Output :=
  match main df new_problem with
  | Ok (out, _) => Ok out
  | Raise e => Raise e
  end.

End Script.

(** ** Contracts of the library code *)

(** Sort key order of [sort_values(ascending=False)] with the default
    [na_position='last']: [a] may stand before [b]. *)
Definition key_ge (a b : float64) : bool :=
  match a, b with
  | _, NaN => true
  | NaN, _ => false
  | _, _ => fle b a
  end.

(** What every sorting algorithm of [sort_values] guarantees: the labels
    come back as a rearrangement of the index, in descending key order. *)
Definition sort_values_spec (sort : list float64 -> list nat) : Prop :=
  forall col : list float64,
    Permutation (seq 0 (length col)) (sort col) /\
    StronglySorted (fun i j => key_ge (loc col i) (loc col j) = true)
      (sort col).

(** A status of [Optimal] comes with values that satisfy every constraint
    and every variable bound of the problem. *)
Definition solver_spec (solve : LpProblem -> Solution) : Prop :=
  forall m : LpProblem,
    status (solve m) = LpStatusOptimal ->
    feasible (varValue (solve m)) m = true.

(** ** Reference instances of the library code *)

(** Insertion into a list of (label, key) pairs already in descending
    order; [ahead a b] decides whether a new key [a] goes in front of [b]. *)
Fixpoint insert_desc (ahead : float64 -> float64 -> bool)
  (p : nat * float64) (l : list (nat * float64)) : list (nat * float64) :=
  match l with
  | [] => [p]
  | q :: l' =>
      if ahead (snd p) (snd q) then p :: q :: l'
      else q :: insert_desc ahead p l'
  end.

Definition argsort_desc (ahead : float64 -> float64 -> bool)
  (col : list float64) : list nat :=
  map fst
    (fold_right (insert_desc ahead) [] (combine (seq 0 (length col)) col)).

(** A stable descending sort: equal keys keep their input order. *)
Definition stable_sort_desc : list float64 -> list nat :=
  argsort_desc key_ge.

(** A descending sort that is not stable: equal keys come out in reverse
    input order. *)
Definition reversing_sort_desc : list float64 -> list nat :=
  argsort_desc (fun a b => negb (key_ge b a)).

(** A solver that only certifies a given assignment. *)
Definition checking_solver (v : LpVariable -> Z) (m : LpProblem) : Solution :=
  if feasible v m then mkSolution LpStatusOptimal v
  else mkSolution LpStatusInfeasible v.

(** A solver that reports the given status and leaves the given values. *)
Definition constant_solver (st : LpStatus) (v : LpVariable -> Z)
  (m : LpProblem) : Solution := mkSolution st v.

(** ** The default sort of the library, as numpy runs it *)

(** [sort_values] is called without [kind], so pandas' [nargsort] hands the
    column to numpy's [argsort(kind='quicksort')].  This is numpy's scalar
    argsort for float64 ([aquicksort]), followed step by step: an introsort
    that partitions around the median of three while a block has more than
    [SMALL_QUICKSORT + 1] entries and finishes each block by insertion.
    [tosort] is the array of positions being permuted, [v] the keys; the
    switch to heapsort once the depth limit is used up is not modelled
    ([None]), nor is a run that exceeds the given number of steps. *)
Module Numpy.

(** The order numpy sorts doubles by: [a < b], with [NaN] after every
    number. *)
Definition less (a b : float64) : bool :=
  (fle a b && negb (fle b a)) || (isnan b && negb (isnan a)).

Definition SMALL_QUICKSORT : nat := 16.

Definition aget (tosort : list nat) (p : nat) : nat := nth p tosort 0%nat.

Fixpoint aset (tosort : list nat) (p : nat) (i : nat) : list nat :=
  match tosort, p with
  | [], _ => []
  | _ :: t, O => i :: t
  | h :: t, S p' => h :: aset t p' i
  end.

Definition INTP_SWAP (tosort : list nat) (p q : nat) : list nat :=
  aset (aset tosort p (aget tosort q)) q (aget tosort p).

Section Keys.

Variable v : list float64.

Definition keyval (i : nat) : float64 := nth i v NaN.

(** The conditional swap of the median-of-three step: the positions at
    [q] and [p] are exchanged when the key at [q] is less than the key at
    [p]. *)
Definition swap_if_less (tosort : list nat) (q p : nat) : list nat :=
  if less (keyval (aget tosort q)) (keyval (aget tosort p))
  then INTP_SWAP tosort q p else tosort.

(** The loop that advances [pi] at least once and as long as its key is
    less than the pivot [vp]. *)
Fixpoint scan_up (steps : nat) (tosort : list nat) (vp : float64) (pi : nat) :
  option nat :=
  match steps with
  | O => None
  | S steps' =>
      if less (keyval (aget tosort (S pi))) vp
      then scan_up steps' tosort vp (S pi)
      else Some (S pi)
  end.

(** The loop that moves [pj] back at least once and as long as the pivot
    [vp] is less than its key. *)
Fixpoint scan_down (steps : nat) (tosort : list nat) (vp : float64)
  (pj : nat) : option nat :=
  match steps with
  | O => None
  | S steps' =>
      if less vp (keyval (aget tosort (pj - 1)%nat))
      then scan_down steps' tosort vp (pj - 1)%nat
      else Some (pj - 1)%nat
  end.

(** The [for (;;)] loop of the partition; returns the array and [pi]. *)
Fixpoint partition (steps : nat) (tosort : list nat) (vp : float64)
  (pi pj : nat) : option (list nat * nat) :=
  match steps with
  | O => None
  | S steps' =>
      match scan_up (length tosort) tosort vp pi,
            scan_down (length tosort) tosort vp pj with
      | Some pi', Some pj' =>
          if (pj' <=? pi')%nat then Some (tosort, pi')
          else partition steps' (INTP_SWAP tosort pi' pj') vp pi' pj'
      | _, _ => None
      end
  end.

(** The inner loop of the insertion sort: while [pj > pl] and [vp] is less
    than the key in front of [pj], that entry moves up by one and [pj]
    moves back.  Returns the array and [pj]. *)
Fixpoint shift (tosort : list nat) (vp : float64) (pl pj : nat) :
  list nat * nat :=
  match pj with
  | O => (tosort, O)
  | S pk =>
      if (pl <? pj)%nat && less vp (keyval (aget tosort pk))
      then shift (aset tosort pj (aget tosort pk)) vp pl pk
      else (tosort, pj)
  end.

(** The insertion sort of the block [pl .. pr]. *)
Definition insertion_sort (tosort : list nat) (pl pr : nat) : list nat :=
  fold_left
    (fun a pi =>
       let vi := aget a pi in
       let '(a', pj) := shift a (keyval vi) pl pi in
       aset a' pj vi)
    (seq (S pl) (pr - pl)%nat) tosort.

(** The loop [while ((pr - pl) > SMALL_QUICKSORT)]: partitions, pushes the
    larger part with the decremented depth and goes on with the smaller
    one.  Returns the array, the block left over, the stack and the
    depth. *)
Fixpoint quicksort_partitions (steps : nat) (tosort : list nat) (pl pr : nat)
  (stack : list (nat * nat * Z)) (cdepth : Z) :
  option (list nat * nat * nat * list (nat * nat * Z) * Z) :=
  match steps with
  | O => None
  | S steps' =>
      if (SMALL_QUICKSORT <? pr - pl)%nat then
        let pm := (pl + Nat.div2 (pr - pl))%nat in
        let a := swap_if_less tosort pm pl in
        let a := swap_if_less a pr pm in
        let a := swap_if_less a pm pl in
        let vp := keyval (aget a pm) in
        let a := INTP_SWAP a pm (pr - 1)%nat in
        match partition (length a) a vp pl (pr - 1)%nat with
        | None => None
        | Some (a, pi) =>
            let a := INTP_SWAP a pi (pr - 1)%nat in
            let cdepth := cdepth - 1 in
            if (pi - pl <? pr - pi)%nat
            then quicksort_partitions steps' a pl (pi - 1)%nat
                   ((S pi, pr, cdepth) :: stack) cdepth
            else quicksort_partitions steps' a (S pi) pr
                   ((pl, (pi - 1)%nat, cdepth) :: stack) cdepth
        end
      else Some (tosort, pl, pr, stack, cdepth)
  end.

(** The outer [while (1)] loop with its stack of pending blocks. *)
Fixpoint quicksort_loop (steps : nat) (tosort : list nat) (pl pr : nat)
  (stack : list (nat * nat * Z)) (cdepth : Z) : option (list nat) :=
  match steps with
  | O => None
  | S steps' =>
      if cdepth <? 0 then None
      else
        match quicksort_partitions (length tosort) tosort pl pr stack cdepth
        with
        | None => None
        | Some (a, pl, pr, stack, _) =>
            let a := insertion_sort a pl pr in
            match stack with
            | [] => Some a
            | (pl', pr', cdepth') :: stack' =>
                quicksort_loop steps' a pl' pr' stack' cdepth'
            end
        end
  end.

End Keys.

(** [npy_get_msb]: the position of the highest bit set. *)
Definition npy_get_msb (num : nat) : Z := Z.of_nat (Nat.log2 num).

(** [argsort(kind='quicksort')] of a float64 array: the positions of [v] in
    ascending key order. *)
Definition aquicksort (v : list float64) : option (list nat) :=
  let num := length v in
  quicksort_loop v (S num) (seq 0 num) 0%nat (num - 1)%nat []
    (npy_get_msb num * 2).

End Numpy.

(** pandas' [nargsort(items, kind='quicksort', ascending=False,
    na_position='last')]: the entries that are not [NaN] are reversed,
    sorted in ascending order and reversed again, and the labels of the
    [NaN] entries follow. *)
Definition nargsort_desc (items : list float64) : option (list nat) :=
  let rows := combine (seq 0 (length items)) items in
  let non_nan := filter (fun p => negb (isnan (snd p))) rows in
  let nan_idx := map fst (filter (fun p => isnan (snd p)) rows) in
  let non_nans := rev (map snd non_nan) in
  let non_nan_idx := rev (map fst non_nan) in
  match Numpy.aquicksort non_nans with
  | None => None
  | Some order =>
      Some (rev (map (fun p => nth p non_nan_idx 0%nat) order) ++ nan_idx)
  end.

(** [sort_values] with the default algorithm; the empty ranking stands for
    a run that the model of numpy's sort does not cover. *)
Definition pandas_sort_values_desc (col : list float64) : list nat :=
  match nargsort_desc col with
  | Some ranking => ranking
  | None => []
  end.

(** ** Vocabulary of the statements *)

(** [max] of a non-negative integer column. *)
Definition max_count (f : Row -> Z) (df : DataFrame) : Z :=
  fold_right Z.max 0 (map f df).

(** Equality of float values up to the representation of the rational. *)
Definition feq (a b : float64) : Prop :=
  match a, b with
  | Fin p, Fin q => (p == q)%Q
  | PInf, PInf | NInf, NInf | NaN, NaN => True
  | _, _ => False
  end.

(** No two rows of the column have the same sort key. *)
Definition no_ties (col : list float64) : Prop :=
  forall i j : nat,
    (i < length col)%nat -> (j < length col)%nat ->
    key_ge (loc col i) (loc col j) = true ->
    key_ge (loc col j) (loc col i) = true ->
    i = j.

(** The column is zero in every row. *)
Definition uniformly_zero (f : Row -> Z) (df : DataFrame) : Prop :=
  Forall (fun r => f r = 0) df.

(** The constraint set of the built problem, in the order of the script. *)
Definition constraint_set (df : DataFrame) (priority : list nat)
  (jaipur_idx : nat) : list LpConstraint :=
  [Budget_Limit df; Max_Police df; Max_Awareness df]
  ++ flat_map (fun i => [Top5_Min_Resource i; Top5_Max_Resource i]) priority
  ++ [Jaipur_Max_Police jaipur_idx; Jaipur_Max_Awareness jaipur_idx;
      Jaipur_Min_Police jaipur_idx; Jaipur_Min_Awareness jaipur_idx]
  ++ flat_map
       (fun i => [Max_Police_Per_District i; Max_Awareness_Per_District i])
       (index df).

(** ** Sample tables *)

Definition df_demo : DataFrame :=
  [ mkRow "Ajmer" 100 40 80;
    mkRow "Jaipur" 200 80 100;
    mkRow "Kota" 50 80 20;
    mkRow "Alwar" 120 60 90;
    mkRow "Udaipur" 90 30 70;
    mkRow "Bikaner" 60 20 40;
    mkRow "Sikar" 30 10 10 ].

(** Six districts with identical counts behind the exempt one. *)
Definition df_ties : DataFrame :=
  [ mkRow "Jaipur" 200 80 100;
    mkRow "Ajmer" 100 40 50;
    mkRow "Kota" 100 40 50;
    mkRow "Alwar" 100 40 50;
    mkRow "Udaipur" 100 40 50;
    mkRow "Bikaner" 100 40 50;
    mkRow "Sikar" 100 40 50 ].

(** Nobody was killed anywhere. *)
Definition df_zero_killed : DataFrame :=
  [ mkRow "Ajmer" 10 0 8;
    mkRow "Jaipur" 20 0 10 ].

(** The exempt district is missing. *)
Definition df_no_jaipur : DataFrame :=
  [ mkRow "Ajmer" 10 4 8;
    mkRow "Kota" 5 8 2 ].

(** Thirty-two districts behind the exempt one.  District [i] has the
    counts [20 t], [8 t] and [10 t] for its level [t], the [i]-th entry of
    [levels], so that its three quotients are all [t/10]; the twelve
    districts of level 9 share the second-highest severity. *)
Definition levels : list Z :=
  [ 9; 3; 7; 9; 2; 5; 9; 1; 4; 9; 6; 3; 9; 8; 2; 9;
    5; 7; 9; 1; 6; 9; 4; 8; 9; 2; 5; 9; 3; 7; 9; 6 ].

Definition df_levels : DataFrame :=
  mkRow "Jaipur" 200 80 100
  :: map (fun p : nat * Z =>
            mkRow ("District_" ++ str (fst p))
              (20 * snd p) (8 * snd p) (10 * snd p))
       (combine (seq 1 (length levels)) levels).

(** Forty police units and thirty campaigns for row 1, one police unit for
    every other row. *)
Definition demo_allocation (v : LpVariable) : Z :=
  match family v, key v with
  | Police, 1%nat => 40
  | Awareness, 1%nat => 30
  | Police, _ => 1
  | Awareness, _ => 0
  end.

Definition zero_allocation (v : LpVariable) : Z := 0.

(** ** The rest of the script and further vocabulary *)

(** Line 91: the budget the summary reports as used. *)
Definition total_budget_used (out : Output) : Z :=
  cost_x * Series_sum (Police_Allocated out)
  + cost_z * Series_sum (Awareness_Campaigns out).

(** Line 98: the labels of
    [df.sort_values(by='Total Impact Score', ascending=False).head(10)]. *)
Definition top10_df (sort_values_desc : list float64 -> list nat)
  (out : Output) : list nat :=
  firstn 10 (sort_values_desc (Total_Impact_Score out)).

(** The least every rule asks for: the minima of the exempt district, one
    police unit for each priority district, nothing elsewhere. *)
Definition minimal_allocation (priority : list nat) (jaipur_idx : nat)
  (v : LpVariable) : Z :=
  match family v with
  | Police =>
      if Nat.eqb (key v) jaipur_idx then 40
      else if existsb (Nat.eqb (key v)) priority then 1
      else 0
  | Awareness => if Nat.eqb (key v) jaipur_idx then 30 else 0
  end.

(** The same table with every count column counted in another unit. *)
Definition rescale (ck ci ca : Z) (df : DataFrame) : DataFrame :=
  map (fun r =>
         mkRow (District r) (ca * Accidents r) (ck * Killed r)
           (ci * Injured r)) df.

(** The division of line 14 to 16 converts the integer columns to float64,
    which holds every integer of magnitude below [2^53] exactly. *)
Definition exact_in_float64 (n : Z) : Prop := Z.abs n < 2 ^ 53.

Definition counts_exact (df : DataFrame) : Prop :=
  Forall (fun r =>
            exact_in_float64 (Killed r) /\
            exact_in_float64 (Injured r) /\
            exact_in_float64 (Accidents r)) df.

(** The severity formula of the scorer as a rational number, for a row [r]
    of the table [df]. *)
Definition severity_value (df : DataFrame) (r : Row) : Q :=
  (0.5 * (inject_Z (Killed r) / inject_Z (max_count Killed df))
   + 0.3 * (inject_Z (Injured r) / inject_Z (max_count Injured df))
   + 0.2 * (inject_Z (Accidents r) / inject_Z (max_count Accidents df)))%Q.

(** Every count column has a positive entry. *)
Definition positive_maxima (df : DataFrame) : Prop :=
  0 < max_count Killed df /\ 0 < max_count Injured df /\
  0 < max_count Accidents df.

(** The names of the constraints of a problem, in order. *)
Definition constraint_names (m : LpProblem) : list string :=
  map cname (constraints m).

(** ** The normalization in IEEE binary64

    The one place where rounding decides a statement of this file is the
    quotient [100 * t / max] of the row that holds the maximum; it is
    evaluated here with the rounding of binary64. *)

Module Binary64.

Definition prec : Z := 53.
Definition emax : Z := 1024.

Definition of_Z (n : Z) : spec_float := binary_normalize prec emax n 0 false.
Definition mul : spec_float -> spec_float -> spec_float := SFmul prec emax.
Definition div : spec_float -> spec_float -> spec_float := SFdiv prec emax.

(** [100 * t / t.max()] at the row whose total impact [t] is the maximum. *)
Definition normalized_of_maximum (t : spec_float) : spec_float :=
  div (mul (of_Z 100) t) t.

End Binary64.

(** * Facts *)

(** ** Float arithmetic on finite values *)

Section FloatFacts.

Local Open Scope Q_scope.

Lemma Qsign_Gt (q : Q) : 0 < q -> Qsign q = Gt.
Proof. intros H. unfold Qsign. now apply Qgt_alt. Qed.

Lemma Qsign_Eq (q : Q) : q == 0 <-> Qsign q = Eq.
Proof. unfold Qsign. apply Qeq_alt. Qed.

Lemma is_fin_Fin (q : Q) : is_fin (Fin q) q.
Proof. exists q. split; [reflexivity | apply Qeq_refl]. Qed.

Lemma is_fin_of_int (n : Z) : is_fin (of_int n) (inject_Z n).
Proof. apply is_fin_Fin. Qed.

Lemma is_fin_eq (v : float64) (p q : Q) : is_fin v p -> p == q -> is_fin v q.
Proof.
  intros (p' & -> & Hp) Hpq. exists p'. split; [reflexivity |].
  now rewrite Hp.
Qed.

Lemma is_fin_add (u v : float64) (p q : Q) :
  is_fin u p -> is_fin v q -> is_fin (fadd u v) (p + q).
Proof.
  intros (p' & -> & Hp) (q' & -> & Hq). simpl.
  exists (Qred (p' + q')). split; [reflexivity |].
  now rewrite Qred_correct, Hp, Hq.
Qed.

Lemma is_fin_mul (u v : float64) (p q : Q) :
  is_fin u p -> is_fin v q -> is_fin (fmul u v) (p * q).
Proof.
  intros (p' & -> & Hp) (q' & -> & Hq). simpl.
  exists (Qred (p' * q')). split; [reflexivity |].
  now rewrite Qred_correct, Hp, Hq.
Qed.

Lemma is_fin_div (u v : float64) (p q : Q) :
  is_fin u p -> is_fin v q -> ~ q == 0 -> is_fin (fdiv u v) (p / q).
Proof.
  intros (p' & -> & Hp) (q' & -> & Hq) Hnz. simpl.
  assert (Hs : Qsign q' <> Eq).
  { intros E. apply Qsign_Eq in E. apply Hnz. now rewrite <- Hq. }
  assert (Hr : is_fin (Fin (Qred (p' / q'))) (p / q)).
  { exists (Qred (p' / q')). split; [reflexivity |].
    now rewrite Qred_correct, Hp, Hq. }
  destruct (Qsign q'); [congruence | exact Hr | exact Hr].
Qed.

(** A zero divisor never yields a finite quotient of zero by zero. *)
Lemma fdiv_zero_zero (u v : float64) :
  is_fin u 0 -> is_fin v 0 -> fdiv u v = NaN.
Proof.
  intros (p & -> & Hp) (q & -> & Hq). simpl.
  apply Qsign_Eq in Hp, Hq. now rewrite Hq, Hp.
Qed.

Lemma fadd_NaN_r (v : float64) : fadd v NaN = NaN.
Proof. now destruct v. Qed.

Lemma fmul_NaN_r (v : float64) : fmul v NaN = NaN.
Proof. now destruct v. Qed.

Lemma fle_refl (a : float64) : isnan a = false -> fle a a = true.
Proof.
  destruct a; simpl; try reflexivity; try discriminate.
  intros _. apply Qle_bool_iff, Qle_refl.
Qed.

Lemma fle_trans (a b c : float64) :
  fle a b = true -> fle b c = true -> fle a c = true.
Proof.
  destruct a, b, c; simpl; try reflexivity; try discriminate.
  rewrite !Qle_bool_iff. apply Qle_trans.
Qed.

Lemma fle_total (a b : float64) :
  isnan a = false -> isnan b = false -> fle a b = true \/ fle b a = true.
Proof.
  destruct a as [p| | |], b as [q| | |]; simpl; auto; try discriminate.
  intros _ _. rewrite !Qle_bool_iff.
  destruct (Qlt_le_dec q p) as [H|H]; [right; now apply Qlt_le_weak | now left].
Qed.

Lemma fle_antisym (a b : float64) :
  fle a b = true -> fle b a = true -> feq a b.
Proof.
  destruct a, b; simpl; try reflexivity; try discriminate.
  rewrite !Qle_bool_iff. apply Qle_antisym.
Qed.

Lemma fle_not_nan (a b : float64) :
  fle a b = true -> isnan a = false /\ isnan b = false.
Proof. destruct a, b; simpl; auto; discriminate. Qed.

Lemma feq_refl (a : float64) : feq a a.
Proof. destruct a; simpl; auto. apply Qeq_refl. Qed.

Lemma feq_is_fin (a b : float64) (q : Q) : feq a b -> is_fin b q -> is_fin a q.
Proof.
  intros E (q' & -> & Hq). destruct a as [p| | |]; simpl in E; try contradiction.
  exists p. split; [reflexivity |]. now rewrite E.
Qed.

End FloatFacts.

(** ** Series *)

Lemma Series_zip_map {A : Type} (op : float64 -> float64 -> float64)
  (f g : A -> float64) (l : list A) :
  Series_zip op (map f l) (map g l) = map (fun r => op (f r) (g r)) l.
Proof.
  induction l as [|r l IH]; simpl; [reflexivity | now rewrite IH].
Qed.

Lemma loc_map {A : Type} (f : A -> float64) (l : list A) (d : A) (i : nat) :
  (i < length l)%nat -> loc (map f l) i = f (nth i l d).
Proof.
  intros Hi. unfold loc.
  rewrite (nth_indep _ NaN (f d)) by now rewrite length_map.
  apply map_nth.
Qed.

(** The maximum of an integer column is one of its entries. *)
Lemma Series_max_ints (l : list Z) :
  (l = [] /\ Series_max (map of_int l) = NaN) \/
  (exists m, Series_max (map of_int l) = of_int m /\ In m l /\
             Forall (fun a => a <= m) l).
Proof.
  induction l as [|a l IH]; [left; now split | right].
  change (Series_max (map of_int (a :: l)))
    with (fmax_skipna (of_int a) (Series_max (map of_int l))).
  destruct IH as [[-> E] | (m & E & Hin & Hall)].
  - simpl. exists a. repeat split; [now left | constructor; [lia | constructor]].
  - rewrite E. unfold of_int at 1 2. simpl.
    destruct (Qle_bool (inject_Z a) (inject_Z m)) eqn:Hc.
    + apply Qle_bool_iff in Hc. rewrite <- Zle_Qle in Hc.
      exists m. repeat split; [now right | constructor; [exact Hc | exact Hall]].
    + assert (Hlt : m < a).
      { destruct (Z_lt_le_dec m a) as [H|H]; [exact H |].
        rewrite Zle_Qle in H. apply Qle_bool_iff in H. congruence. }
      exists a. repeat split; [now left |].
      constructor; [lia |].
      eapply Forall_impl; [| exact Hall]. simpl. intros; lia.
Qed.

Lemma fold_max_bounds (l : list Z) (m : Z) :
  In m l -> Forall (fun a => a <= m) l -> fold_right Z.max 0 l = Z.max 0 m.
Proof.
  intros Hin Hall.
  assert (Hub : fold_right Z.max 0 l <= Z.max 0 m).
  { clear Hin. induction Hall; simpl; lia. }
  assert (Hlb : m <= fold_right Z.max 0 l /\ 0 <= fold_right Z.max 0 l).
  { clear Hall Hub. induction l as [|a l IH]; [contradiction |].
    simpl. destruct Hin as [-> | Hin].
    - assert (0 <= fold_right Z.max 0 l) by (clear; induction l; simpl; lia).
      lia.
    - specialize (IH Hin). lia. }
  lia.
Qed.

Lemma column_as_ints (f : Row -> Z) (df : DataFrame) :
  column f df = map of_int (map f df).
Proof. unfold column. now rewrite map_map. Qed.

(** On a column with a positive entry, [Series.max()] is [max_count]. *)
Lemma Series_max_column (f : Row -> Z) (df : DataFrame) :
  0 < max_count f df ->
  Series_max (column f df) = of_int (max_count f df) /\
  (exists r, In r df /\ f r = max_count f df) /\
  Forall (fun r => f r <= max_count f df) df.
Proof.
  intros Hpos. rewrite column_as_ints. unfold max_count in *.
  destruct (Series_max_ints (map f df)) as [[E _] | (m & E & Hin & Hall)].
  - rewrite E in Hpos. simpl in Hpos. lia.
  - rewrite (fold_max_bounds _ m Hin Hall) in *.
    assert (Hm : Z.max 0 m = m) by lia. rewrite Hm.
    split; [exact E | split].
    + apply in_map_iff in Hin. destruct Hin as (r & Hr & Hin). now exists r.
    + rewrite Forall_map in Hall. exact Hall.
Qed.

(** On a column that is zero throughout, [Series.max()] is zero. *)
Lemma Series_max_zero_column (f : Row -> Z) (df : DataFrame) :
  uniformly_zero f df -> df <> [] -> Series_max (column f df) = of_int 0.
Proof.
  intros Hz Hne. rewrite column_as_ints.
  destruct (Series_max_ints (map f df)) as [[E _] | (m & E & Hin & _)].
  - destruct df; [congruence | discriminate].
  - apply in_map_iff in Hin. destruct Hin as (r & <- & Hin).
    unfold uniformly_zero in Hz. rewrite Forall_forall in Hz.
    now rewrite (Hz r Hin) in E.
Qed.

(** ** Severity Scorer *)

(** The series expression of the scorer, row by row. *)
Lemma Weighted_Severity_rows (df : DataFrame) :
  Weighted_Severity df =
  map (fun r =>
         fadd
           (fadd
              (fmul w_killed
                 (fdiv (of_int (Killed r)) (Series_max (column Killed df))))
              (fmul w_injured
                 (fdiv (of_int (Injured r)) (Series_max (column Injured df)))))
           (fmul w_accidents
              (fdiv (of_int (Accidents r)) (Series_max (column Accidents df)))))
      df.
Proof.
  unfold Weighted_Severity, Series_add, scalar_mul, sub_score, div_scalar,
    column.
  rewrite !map_map.
  rewrite (Series_zip_map fadd
             (fun r => fmul w_killed (fdiv (of_int (Killed r)) _))
             (fun r => fmul w_injured (fdiv (of_int (Injured r)) _))).
  now rewrite (Series_zip_map fadd _
             (fun r => fmul w_accidents (fdiv (of_int (Accidents r)) _))).
Qed.

Lemma Weighted_Severity_length (df : DataFrame) :
  length (Weighted_Severity df) = length df.
Proof. rewrite Weighted_Severity_rows. apply length_map. Qed.

Lemma sub_score_rows (f : Row -> Z) (df : DataFrame) :
  sub_score f df =
  map (fun r => fdiv (of_int (f r)) (Series_max (column f df))) df.
Proof. unfold sub_score, div_scalar, column. now rewrite map_map. Qed.

Lemma Forall2_map_self {A B : Type} (P : A -> B -> Prop) (f : A -> B)
  (l : list A) :
  Forall (fun r => P r (f r)) l -> Forall2 P l (map f l).
Proof. induction 1; simpl; constructor; assumption. Qed.

(** A count divided by the positive maximum of its column is a finite
    number between 0 and 1. *)
Lemma ratio_in_unit_interval (k m : Z) :
  0 <= k <= m -> 0 < m ->
  is_fin (fdiv (of_int k) (of_int m)) (inject_Z k / inject_Z m) /\
  (0 <= inject_Z k / inject_Z m <= 1)%Q.
Proof.
  intros [Hk Hkm] Hm.
  assert (HmQ : (0 < inject_Z m)%Q) by (now rewrite (Zlt_Qlt 0 m) in Hm).
  split.
  - apply is_fin_div; try apply is_fin_of_int.
    intros E. rewrite E in HmQ. now apply Qlt_irrefl in HmQ.
  - split.
    + apply Qle_shift_div_l; [exact HmQ |].
      rewrite Qmult_0_l. now rewrite (Zle_Qle 0 k) in Hk.
    + apply Qle_shift_div_r; [exact HmQ |].
      rewrite Qmult_1_l. now rewrite (Zle_Qle k m) in Hkm.
Qed.

(** The full sub-score: the row holding the column maximum scores 1.0. *)
Lemma sub_score_attains_one (f : Row -> Z) (df : DataFrame) :
  0 < max_count f df -> Exists (fun s => s = Fin 1) (sub_score f df).
Proof.
  intros Hpos.
  destruct (Series_max_column f df Hpos) as (E & (r & Hin & Hr) & _).
  rewrite sub_score_rows, E. apply Exists_exists.
  exists (fdiv (of_int (f r)) (of_int (max_count f df))). split.
  - apply in_map_iff. now exists r.
  - rewrite Hr. unfold of_int, fdiv.
    assert (HmQ : (0 < inject_Z (max_count f df))%Q)
      by (now rewrite (Zlt_Qlt 0 _) in Hpos).
    rewrite (Qsign_Gt _ HmQ). f_equal.
    change 1%Q with (Qred 1). apply Qred_complete.
    apply Qmult_inv_r. intros E0. rewrite E0 in HmQ.
    now apply Qlt_irrefl in HmQ.
Qed.

(** C3. On a table with non-negative counts and a positive maximum in each
    count column, the severity of every district is the finite number
    0.5*(killed/max killed) + 0.3*(injured/max injured)
    + 0.2*(accidents/max accidents), it lies between 0 and 1, and in each
    of the three dimensions some district has sub-score 1.0. *)
Theorem severity_formula_range_and_full_scores (df : DataFrame) :
  Forall (fun r => 0 <= Killed r /\ 0 <= Injured r /\ 0 <= Accidents r) df ->
  0 < max_count Killed df ->
  0 < max_count Injured df ->
  0 < max_count Accidents df ->
  Forall2
    (fun r v =>
       exists q : Q,
         v = Fin q /\
         (q == 0.5 * (inject_Z (Killed r) / inject_Z (max_count Killed df))
               + 0.3 * (inject_Z (Injured r) / inject_Z (max_count Injured df))
               + 0.2 * (inject_Z (Accidents r)
                        / inject_Z (max_count Accidents df)))%Q /\
         (0 <= q <= 1)%Q)
    df (Weighted_Severity df) /\
  Exists (fun s => s = Fin 1) (sub_score Killed df) /\
  Exists (fun s => s = Fin 1) (sub_score Injured df) /\
  Exists (fun s => s = Fin 1) (sub_score Accidents df).
Proof.
  intros Hnn HK HI HA.
  split; [| repeat split; now apply sub_score_attains_one].
  destruct (Series_max_column Killed df HK) as (EK & _ & BK).
  destruct (Series_max_column Injured df HI) as (EI & _ & BI).
  destruct (Series_max_column Accidents df HA) as (EA & _ & BA).
  rewrite Weighted_Severity_rows, EK, EI, EA.
  apply Forall2_map_self.
  rewrite Forall_forall in *. intros r Hr.
  destruct (Hnn r Hr) as (Hk & Hi & Ha).
  destruct (ratio_in_unit_interval (Killed r) _ (conj Hk (BK r Hr)) HK)
    as (Fk & Rk).
  destruct (ratio_in_unit_interval (Injured r) _ (conj Hi (BI r Hr)) HI)
    as (Fi & Ri).
  destruct (ratio_in_unit_interval (Accidents r) _ (conj Ha (BA r Hr)) HA)
    as (Fa & Ra).
  pose proof (is_fin_add _ _ _ _
                (is_fin_add _ _ _ _
                   (is_fin_mul _ _ _ _ (is_fin_Fin (5 # 10)) Fk)
                   (is_fin_mul _ _ _ _ (is_fin_Fin (3 # 10)) Fi))
                (is_fin_mul _ _ _ _ (is_fin_Fin (2 # 10)) Fa)) as Hsum.
  destruct Hsum as (q & Eq & Hq).
  exists q. split; [exact Eq |]. split; [exact Hq |].
  rewrite Hq. split; lra.
Qed.

Lemma severity_formula_range_and_full_scores_witness :
  Forall2
    (fun r v =>
       exists q : Q,
         v = Fin q /\
         (q == 0.5 * (inject_Z (Killed r) / inject_Z (max_count Killed df_demo))
               + 0.3 * (inject_Z (Injured r)
                        / inject_Z (max_count Injured df_demo))
               + 0.2 * (inject_Z (Accidents r)
                        / inject_Z (max_count Accidents df_demo)))%Q /\
         (0 <= q <= 1)%Q)
    df_demo (Weighted_Severity df_demo) /\
  Exists (fun s => s = Fin 1) (sub_score Killed df_demo) /\
  Exists (fun s => s = Fin 1) (sub_score Injured df_demo) /\
  Exists (fun s => s = Fin 1) (sub_score Accidents df_demo).
Proof.
  apply severity_formula_range_and_full_scores.
  - repeat constructor; simpl; lia.
  - vm_compute; reflexivity.
  - vm_compute; reflexivity.
  - vm_compute; reflexivity.
Defined.

(** A column that is zero throughout turns every sub-score of that
    dimension into [NaN]: each entry is [0/0]. *)
Lemma sub_score_zero_column (f : Row -> Z) (df : DataFrame) :
  uniformly_zero f df -> Forall (fun s => s = NaN) (sub_score f df).
Proof.
  intros Hz. destruct df as [|r0 df0] eqn:Edf; [constructor |].
  rewrite <- Edf in *.
  rewrite sub_score_rows, Series_max_zero_column by (subst; congruence).
  rewrite Forall_map. unfold uniformly_zero in Hz.
  eapply Forall_impl; [| exact Hz]. simpl. intros r ->. reflexivity.
Qed.

Lemma zero_column_severity (df : DataFrame) :
  uniformly_zero Killed df \/ uniformly_zero Injured df \/
  uniformly_zero Accidents df ->
  Forall (fun v => v = NaN) (Weighted_Severity df).
Proof.
  intros H. rewrite Weighted_Severity_rows, Forall_map.
  pose proof (sub_score_rows Killed df) as SK.
  pose proof (sub_score_rows Injured df) as SI.
  pose proof (sub_score_rows Accidents df) as SA.
  destruct H as [H | [H | H]]; apply sub_score_zero_column in H;
    [rewrite SK in H | rewrite SI in H | rewrite SA in H];
    rewrite Forall_map in H; (eapply Forall_impl; [| exact H]);
    simpl; intros r ->.
  - reflexivity.
  - unfold w_killed, w_injured. simpl. now rewrite fadd_NaN_r.
  - unfold w_accidents. simpl. now rewrite fadd_NaN_r.
Qed.

(** C2 (amended). On a table in which some count column is zero
    throughout, the scorer raises nothing: it returns normally, the problem
    object untouched, and because every sub-score of that dimension is
    [0/0] the severity it hands on is [NaN] for every district. *)
Theorem zero_column_scored_as_nan (df : DataFrame) (m : LpProblem) :
  uniformly_zero Killed df \/ uniformly_zero Injured df \/
  uniformly_zero Accidents df ->
  exists severity : list float64,
    score df m = Ok (severity, m) /\
    length severity = length df /\
    Forall (fun v => v = NaN) severity.
Proof.
  intros H. exists (Weighted_Severity df).
  split; [reflexivity |].
  split; [apply Weighted_Severity_length | now apply zero_column_severity].
Qed.

Lemma zero_column_scored_as_nan_witness :
  exists severity : list float64,
    score df_zero_killed new_problem = Ok (severity, new_problem) /\
    length severity = length df_zero_killed /\
    Forall (fun v => v = NaN) severity.
Proof.
  apply zero_column_scored_as_nan.
  left. repeat constructor.
Defined.

(** C2, as stated, fails: with nobody killed in any district the scorer
    returns the severity column [NaN; NaN] instead of raising. *)
Lemma zero_killed_column_is_scored :
  uniformly_zero Killed df_zero_killed /\
  score df_zero_killed new_problem = Ok ([NaN; NaN], new_problem) /\
  forall e : exn, score df_zero_killed new_problem <> Raise e.
Proof.
  split; [repeat constructor |].
  split; [reflexivity | discriminate].
Qed.

(** ** Model Builder *)

Section BuilderFacts.

Variable sort_values_desc : list float64 -> list nat.

Lemma bind_Ok {A B : Type} (s : Script A) (k : A -> Script B)
  (m m' : LpProblem) (a : A) :
  s m = Ok (a, m') -> bind s k m = k a m'.
Proof. intros H. unfold bind. now rewrite H. Qed.

Lemma bind_Raise {A B : Type} (s : Script A) (k : A -> Script B)
  (m : LpProblem) (e : exn) :
  s m = Raise e -> bind s k m = Raise e.
Proof. intros H. unfold bind. now rewrite H. Qed.

(** A loop that adds two constraints per label appends them in order. *)
Lemma for_each_add_two (c1 c2 : nat -> LpConstraint) (l : list nat)
  (m : LpProblem) :
  for_each l (fun i => add_constraint (c1 i) ;; add_constraint (c2 i)) m =
  Ok (tt, mkProblem (objective m)
            (constraints m ++ flat_map (fun i => [c1 i; c2 i]) l)).
Proof.
  revert m. induction l as [|i l IH]; intros m.
  - simpl. unfold ret. rewrite app_nil_r. now destruct m.
  - simpl. unfold bind at 1. unfold bind at 1. simpl. rewrite IH. simpl.
    now rewrite <- !app_assoc.
Qed.

(** The whole builder in one equation: it raises [IndexError] when no row
    is named Jaipur, and otherwise leaves the objective and the constraint
    set of the script, the exempt district being the first such row. *)
Lemma build_model_result (df : DataFrame) (severity : list float64) :
  build_model sort_values_desc df severity new_problem =
  match jaipur_labels df with
  | [] => Raise IndexError
  | j :: _ =>
      Ok (tt, mkProblem (severity_objective df severity severity)
                (constraint_set df
                   (top5_excluding_jaipur sort_values_desc severity j) j))
  end.
Proof.
  unfold build_model.
  destruct (jaipur_labels df) as [|j rest] eqn:E.
  - reflexivity.
  - unfold bind at 1 2 3 4 5. simpl.
    unfold bind at 1. rewrite for_each_add_two.
    unfold bind at 1 2 3 4. simpl.
    rewrite for_each_add_two. simpl.
    unfold constraint_set. rewrite <- !app_assoc. reflexivity.
Qed.

Lemma build_model_inv (df : DataFrame) (severity : list float64)
  (m : LpProblem) :
  build_model sort_values_desc df severity new_problem = Ok (tt, m) ->
  exists j, hd_error (jaipur_labels df) = Some j /\
    m = mkProblem (severity_objective df severity severity)
          (constraint_set df
             (top5_excluding_jaipur sort_values_desc severity j) j).
Proof.
  rewrite build_model_result.
  destruct (jaipur_labels df) as [|j rest]; [discriminate |].
  intros H. injection H as <-. now exists j.
Qed.

Lemma build_model_constraints (df : DataFrame) (severity : list float64)
  (m : LpProblem) :
  build_model sort_values_desc df severity new_problem = Ok (tt, m) ->
  exists j, hd_error (jaipur_labels df) = Some j /\
    constraints m =
    constraint_set df (top5_excluding_jaipur sort_values_desc severity j) j.
Proof.
  intros H. destruct (build_model_inv _ _ _ H) as (j & Hj & ->).
  now exists j.
Qed.

Lemma jaipur_labels_none (df : DataFrame) :
  Forall (fun r => District r <> "Jaipur"%string) df ->
  jaipur_labels df = [].
Proof.
  unfold jaipur_labels, index. generalize 0%nat.
  induction df as [|r df IH]; intros n H; [reflexivity |].
  inversion H as [|? ? Hr Hdf]; subst. simpl.
  destruct (String.eqb_spec (District r) "Jaipur"); [contradiction |].
  now apply IH.
Qed.

Lemma jaipur_labels_in_index (df : DataFrame) (j : nat) :
  In j (jaipur_labels df) -> (j < length df)%nat.
Proof.
  unfold jaipur_labels. intros H. apply in_map_iff in H.
  destruct H as ([i r] & <- & H). apply filter_In in H. destruct H as [H _].
  apply in_combine_l in H. unfold index in H. apply in_seq in H. simpl. lia.
Qed.

End BuilderFacts.

(** ** Evaluation of the constraints *)

Lemma eval_app (v : LpVariable -> Z) (e1 e2 : LpAffineExpression Z) :
  eval v (e1 ++ e2) = eval v e1 + eval v e2.
Proof.
  unfold eval. induction e1 as [|t e1 IH]; simpl; [reflexivity |].
  rewrite IH. ring.
Qed.

Lemma eval_budget_terms (v : LpVariable -> Z) (l : list nat) :
  eval v (lpSum (map (fun i => eplus (term cost_x (x i)) (term cost_z (z i)))
                   l)) =
  cost_x * Series_sum (map (fun i => v (x i)) l)
  + cost_z * Series_sum (map (fun i => v (z i)) l).
Proof.
  unfold lpSum. induction l as [|i l IH]; [reflexivity |].
  rewrite !map_cons, concat_cons, eval_app, IH.
  unfold eplus, term, eval, Series_sum.
  cbn [fold_right fst snd map app]. ring.
Qed.

Lemma eval_pair (v : LpVariable -> Z) (i : nat) :
  eval v (eplus (var (x i)) (var (z i))) = v (x i) + v (z i).
Proof.
  unfold eplus, var, term, eval. cbn [fold_right fst snd app]. ring.
Qed.

Lemma eval_var (v : LpVariable -> Z) (u : LpVariable) :
  eval v (var u) = v u.
Proof. unfold var, term, eval. cbn [fold_right fst snd]. ring. Qed.

Lemma feasible_constraint (v : LpVariable -> Z) (m : LpProblem)
  (c : LpConstraint) :
  feasible v m = true -> In c (constraints m) -> satisfies v c = true.
Proof.
  unfold feasible. rewrite forallb_forall. intros H Hin.
  specialize (H c Hin). now apply andb_true_iff in H.
Qed.

Lemma checking_solver_spec (v : LpVariable -> Z) :
  solver_spec (checking_solver v).
Proof.
  intros m. unfold checking_solver.
  destruct (feasible v m) eqn:E; simpl; [intros _; exact E | discriminate].
Qed.

Lemma constant_solver_spec (st : LpStatus) (v : LpVariable -> Z) :
  st <> LpStatusOptimal -> solver_spec (constant_solver st v).
Proof. intros H m. simpl. congruence. Qed.

Section ScriptFacts.

Variable sort_values_desc : list float64 -> list nat.
Variable solve : LpProblem -> Solution.

(** Once the problem is built the script goes straight from the solver to
    the result table. *)
Lemma run_script_built (df : DataFrame) (m : LpProblem) :
  build_model sort_values_desc df (Weighted_Severity df) new_problem
    = Ok (tt, m) ->
  run_script sort_values_desc solve df =
  Ok (collect_results sort_values_desc df (Weighted_Severity df) (solve m)).
Proof.
  intros H. unfold run_script, main, score.
  unfold bind at 1. unfold ret at 1.
  rewrite (bind_Ok _ _ _ _ _ H). reflexivity.
Qed.

Lemma run_script_not_built (df : DataFrame) (e : exn) :
  build_model sort_values_desc df (Weighted_Severity df) new_problem
    = Raise e ->
  run_script sort_values_desc solve df = Raise e.
Proof.
  intros H. unfold run_script, main, score.
  unfold bind at 1. unfold ret at 1.
  now rewrite (bind_Raise _ _ _ _ H).
Qed.

Lemma allocated_at (f : nat -> Z) (n i : nat) :
  (i < n)%nat -> nth i (map f (seq 0 n)) 0 = f i.
Proof.
  intros Hi. rewrite (nth_indep _ 0 (f 0%nat)) by now rewrite length_map, length_seq.
  rewrite map_nth. now rewrite seq_nth.
Qed.

End ScriptFacts.

(** ** Sorting *)

Lemma key_ge_trans (a b c : float64) :
  key_ge a b = true -> key_ge b c = true -> key_ge a c = true.
Proof.
  destruct a, b, c; simpl; try reflexivity; try discriminate.
  rewrite !Qle_bool_iff. intros H1 H2. now apply Qle_trans with q0.
Qed.

Lemma key_ge_total (a b : float64) :
  key_ge a b = true \/ key_ge b a = true.
Proof.
  destruct a as [p| | |], b as [q| | |]; simpl; auto.
  rewrite !Qle_bool_iff.
  destruct (Qlt_le_dec q p) as [H|H]; [left; now apply Qlt_le_weak | now right].
Qed.

Section InsertionSort.

Variable ahead : float64 -> float64 -> bool.
Hypothesis ahead_true : forall a b, ahead a b = true -> key_ge a b = true.
Hypothesis ahead_false : forall a b, ahead a b = false -> key_ge b a = true.

Let by_key (p q : nat * float64) : Prop := key_ge (snd p) (snd q) = true.

Lemma insert_desc_perm (p : nat * float64) (l : list (nat * float64)) :
  Permutation (p :: l) (insert_desc ahead p l).
Proof.
  induction l as [|q l IH]; simpl; [reflexivity |].
  destruct (ahead (snd p) (snd q)); [reflexivity |].
  rewrite perm_swap. now apply perm_skip.
Qed.

Lemma insert_desc_sorted (p : nat * float64) (l : list (nat * float64)) :
  StronglySorted by_key l -> StronglySorted by_key (insert_desc ahead p l).
Proof.
  induction 1 as [|q l Hs IH Hq]; simpl.
  - constructor; constructor.
  - destruct (ahead (snd p) (snd q)) eqn:E.
    + constructor; [now constructor |].
      constructor; [now apply ahead_true |].
      eapply Forall_impl; [| exact Hq]. intros r Hr. unfold by_key in *.
      eapply key_ge_trans; [apply ahead_true; exact E | exact Hr].
    + constructor; [exact IH |].
      eapply Permutation_Forall; [apply insert_desc_perm |].
      constructor; [now apply ahead_false | exact Hq].
Qed.

Lemma fold_insert_perm (l : list (nat * float64)) :
  Permutation l (fold_right (insert_desc ahead) [] l).
Proof.
  induction l as [|p l IH]; simpl; [reflexivity |].
  rewrite <- insert_desc_perm. now apply perm_skip.
Qed.

Lemma fold_insert_sorted (l : list (nat * float64)) :
  StronglySorted by_key (fold_right (insert_desc ahead) [] l).
Proof.
  induction l as [|p l IH]; simpl; [constructor | now apply insert_desc_sorted].
Qed.

Lemma combine_seq_fst (col : list float64) (s : nat) :
  map fst (combine (seq s (length col)) col) = seq s (length col).
Proof.
  revert s. induction col as [|a col IH]; intros s; simpl; [reflexivity |].
  now rewrite IH.
Qed.

Lemma combine_seq_loc (col : list float64) (s i : nat) (k : float64) :
  In (i, k) (combine (seq s (length col)) col) -> nth (i - s) col NaN = k.
Proof.
  revert s. induction col as [|a col IH]; intros s; simpl; [contradiction |].
  intros [H | H].
  - injection H as <- <-. now rewrite Nat.sub_diag.
  - pose proof (in_combine_l _ _ _ _ H) as Hi. apply in_seq in Hi.
    specialize (IH _ H).
    replace (i - s)%nat with (S (i - S s)) by lia. exact IH.
Qed.

Lemma labels_sorted (col : list float64) (l : list (nat * float64)) :
  (forall p, In p l -> snd p = loc col (fst p)) ->
  StronglySorted by_key l ->
  StronglySorted (fun i j => key_ge (loc col i) (loc col j) = true)
    (map fst l).
Proof.
  intros Hloc Hs. induction Hs as [|p l Hs IH Hp]; simpl; constructor.
  - apply IH. intros q Hq. apply Hloc. now right.
  - rewrite Forall_map. rewrite Forall_forall in *. intros q Hq.
    unfold by_key in Hp.
    rewrite <- (Hloc p (or_introl eq_refl)), <- (Hloc q (or_intror Hq)).
    now apply Hp.
Qed.

Lemma argsort_desc_spec : sort_values_spec (argsort_desc ahead).
Proof.
  intros col. unfold argsort_desc. split.
  - rewrite <- (combine_seq_fst col 0) at 1.
    apply Permutation_map, fold_insert_perm.
  - apply labels_sorted; [| apply fold_insert_sorted].
    intros [i k] Hin. simpl.
    apply (Permutation_in _ (Permutation_sym (fold_insert_perm _))) in Hin.
    apply combine_seq_loc in Hin. rewrite Nat.sub_0_r in Hin.
    now symmetry.
Qed.

End InsertionSort.

Lemma stable_sort_desc_spec : sort_values_spec stable_sort_desc.
Proof.
  apply argsort_desc_spec.
  - auto.
  - intros a b H. destruct (key_ge_total a b) as [E | E]; congruence.
Qed.

Lemma reversing_sort_desc_spec : sort_values_spec reversing_sort_desc.
Proof.
  apply argsort_desc_spec.
  - intros a b H. apply negb_true_iff in H.
    destruct (key_ge_total a b) as [E | E]; congruence.
  - intros a b H. now apply negb_false_iff in H.
Qed.

(** Two strongly sorted rearrangements of one another coincide when the
    order never holds both ways between different elements. *)
Lemma sorted_perm_unique {A : Type} (R : A -> A -> Prop) (l1 l2 : list A) :
  (forall a b, In a l1 -> In b l1 -> R a b -> R b a -> a = b) ->
  StronglySorted R l1 -> StronglySorted R l2 -> Permutation l1 l2 ->
  l1 = l2.
Proof.
  intros Hanti H1. revert l2.
  induction H1 as [|a l1 Hs1 IH Ha]; intros l2 H2 Hp.
  - apply Permutation_nil in Hp. now subst.
  - destruct H2 as [|b l2 Hs2 Hb].
    + apply Permutation_sym, Permutation_nil in Hp. discriminate.
    + assert (Hab : a = b).
      { assert (Hina : In a (b :: l2))
          by (apply (Permutation_in _ Hp); now left).
        assert (Hinb : In b (a :: l1))
          by (apply (Permutation_in _ (Permutation_sym Hp)); now left).
        destruct Hina as [-> | Hina]; [reflexivity |].
        destruct Hinb as [-> | Hinb]; [reflexivity |].
        rewrite Forall_forall in Ha, Hb.
        apply Hanti; [now left | now right | now apply Ha | now apply Hb]. }
      subst b. f_equal. apply IH.
      * intros c d Hc Hd. apply Hanti; now right.
      * exact Hs2.
      * now apply Permutation_cons_inv in Hp.
Qed.

Section SortContract.

Variable sort_values_desc : list float64 -> list nat.
Hypothesis sort_ok : sort_values_spec sort_values_desc.

Lemma sorted_label_range (col : list float64) (i : nat) :
  In i (sort_values_desc col) <-> (i < length col)%nat.
Proof.
  destruct (sort_ok col) as [Hp _]. split; intros H.
  - apply (Permutation_in _ (Permutation_sym Hp)) in H.
    apply in_seq in H. lia.
  - apply (Permutation_in _ Hp). apply in_seq. lia.
Qed.

Lemma sorted_labels_NoDup (col : list float64) :
  NoDup (sort_values_desc col).
Proof.
  destruct (sort_ok col) as [Hp _].
  apply (Permutation_NoDup Hp), seq_NoDup.
Qed.

Lemma sorted_labels_length (col : list float64) :
  length (sort_values_desc col) = length col.
Proof.
  destruct (sort_ok col) as [Hp _].
  rewrite <- (Permutation_length Hp). apply length_seq.
Qed.

Lemma top5_in_index (col : list float64) (i : nat) :
  In i (top5 sort_values_desc col) -> (i < length col)%nat.
Proof.
  unfold top5. intros H. apply sorted_label_range.
  rewrite <- (firstn_skipn 5 (sort_values_desc col)).
  apply in_or_app. now left.
Qed.

Lemma top5_NoDup (col : list float64) : NoDup (top5 sort_values_desc col).
Proof.
  unfold top5. pose proof (sorted_labels_NoDup col) as H.
  rewrite <- (firstn_skipn 5 (sort_values_desc col)) in H.
  now apply NoDup_app_remove_r in H.
Qed.

Lemma top5_length (col : list float64) :
  length (top5 sort_values_desc col) = Nat.min 5 (length col).
Proof. unfold top5. now rewrite length_firstn, sorted_labels_length. Qed.

End SortContract.

Lemma excluding_In (j i : nat) (l : list nat) :
  In i (excluding j l) <-> In i l /\ i <> j.
Proof.
  unfold excluding. rewrite filter_In, negb_true_iff, Nat.eqb_neq. tauto.
Qed.

Lemma excluding_absent (j : nat) (l : list nat) :
  ~ In j l -> excluding j l = l.
Proof.
  induction l as [|a l IH]; intros H; [reflexivity |]. simpl.
  destruct (Nat.eqb_spec a j) as [-> | Hne].
  - exfalso. apply H. now left.
  - simpl. f_equal. apply IH. intros Hin. apply H. now right.
Qed.

(** Removing a label that occurs once shortens the list by one. *)
Lemma excluding_length (j : nat) (l : list nat) :
  NoDup l -> In j l -> length (excluding j l) = (length l - 1)%nat.
Proof.
  induction 1 as [|a l Hnin Hnd IH]; intros Hin; [contradiction |].
  simpl. destruct (Nat.eqb_spec a j) as [-> | Hne]; simpl.
  - rewrite excluding_absent by exact Hnin. lia.
  - destruct Hin as [-> | Hin]; [congruence |].
    rewrite IH by exact Hin. destruct l; [contradiction | simpl; lia].
Qed.

(** ** The claims about the constraint set *)

Lemma constraint_set_budget (df : DataFrame) (pr : list nat) (j : nat) :
  In (Budget_Limit df) (constraint_set df pr j).
Proof. unfold constraint_set. simpl. now left. Qed.

Lemma constraint_set_priority (df : DataFrame) (pr : list nat) (j i : nat) :
  In i pr ->
  In (Top5_Min_Resource i) (constraint_set df pr j) /\
  In (Top5_Max_Resource i) (constraint_set df pr j).
Proof.
  intros Hi. unfold constraint_set.
  split; apply in_or_app; right; apply in_or_app; left;
    apply in_flat_map; exists i; (split; [exact Hi | simpl; auto]).
Qed.

Lemma constraint_set_jaipur (df : DataFrame) (pr : list nat) (j : nat) :
  In (Jaipur_Max_Police j) (constraint_set df pr j) /\
  In (Jaipur_Max_Awareness j) (constraint_set df pr j) /\
  In (Jaipur_Min_Police j) (constraint_set df pr j) /\
  In (Jaipur_Min_Awareness j) (constraint_set df pr j).
Proof.
  unfold constraint_set.
  repeat split; apply in_or_app; right; apply in_or_app; right;
    apply in_or_app; left; simpl; auto.
Qed.

Lemma constraint_set_caps (df : DataFrame) (pr : list nat) (j i : nat) :
  (i < length df)%nat ->
  In (Max_Police_Per_District i) (constraint_set df pr j) /\
  In (Max_Awareness_Per_District i) (constraint_set df pr j).
Proof.
  intros Hi. unfold constraint_set.
  split; apply in_or_app; right; apply in_or_app; right;
    apply in_or_app; right; apply in_flat_map; exists i;
    (split; [unfold index; apply in_seq; lia | simpl; auto]).
Qed.

(** C6. Whenever the solver reports [Optimal], the result table respects
    the budget in exact integer arithmetic:
    cost_x * sum(Police Allocated) + cost_z * sum(Awareness Campaigns)
    <= budget. *)
Theorem budget_respected (sort_values_desc : list float64 -> list nat)
  (solve : LpProblem -> Solution) (df : DataFrame) (m : LpProblem) :
  solver_spec solve ->
  build_model sort_values_desc df (Weighted_Severity df) new_problem
    = Ok (tt, m) ->
  status (solve m) = LpStatusOptimal ->
  exists out : Output,
    run_script sort_values_desc solve df = Ok out /\
    cost_x * Series_sum (Police_Allocated out)
    + cost_z * Series_sum (Awareness_Campaigns out) <= budget.
Proof.
  intros Hsolve Hbuild Hopt.
  exists (collect_results sort_values_desc df (Weighted_Severity df) (solve m)).
  split; [now apply run_script_built |].
  destruct (build_model_constraints _ _ _ _ Hbuild) as (j & _ & Em).
  assert (Hin : In (Budget_Limit df) (constraints m))
    by (rewrite Em; apply constraint_set_budget).
  pose proof (feasible_constraint _ _ _ (Hsolve m Hopt) Hin) as Hc.
  unfold satisfies, Budget_Limit in Hc. cbn [sense lhs rhs] in Hc.
  apply Z.leb_le in Hc. rewrite eval_budget_terms in Hc. exact Hc.
Qed.

Lemma budget_respected_witness :
  exists out : Output,
    run_script stable_sort_desc (checking_solver demo_allocation) df_demo
      = Ok out /\
    cost_x * Series_sum (Police_Allocated out)
    + cost_z * Series_sum (Awareness_Campaigns out) <= budget.
Proof.
  eapply budget_respected.
  - apply checking_solver_spec.
  - vm_compute. reflexivity.
  - vm_compute. reflexivity.
Defined.

(** A label is among the first [n] of a ranking exactly when it stands at
    one of the ranks [0 .. n-1]. *)
Lemma In_firstn_rank (n i : nat) (l : list nat) :
  In i (firstn n l) <->
  exists k : nat, (k < n)%nat /\ nth_error l k = Some i.
Proof.
  split.
  - intros H. apply In_nth_error in H. destruct H as [k Hk].
    rewrite nth_error_firstn in Hk.
    destruct (Nat.ltb_spec k n) as [Hlt | Hge]; [| discriminate].
    exists k. now split.
  - intros (k & Hlt & Hk). apply (nth_error_In _ k).
    rewrite nth_error_firstn.
    destruct (Nat.ltb_spec k n) as [_ | Hge]; [exact Hk | lia].
Qed.

(** Removing one label from a list without repetition removes at most one
    entry. *)
Lemma excluding_length_ge (j : nat) (l : list nat) :
  NoDup l -> (length l - 1 <= length (excluding j l))%nat.
Proof.
  intros Hnd. destruct (in_dec Nat.eq_dec j l) as [Hin | Hnin].
  - rewrite excluding_length by assumption. lia.
  - rewrite excluding_absent by assumption. lia.
Qed.

(** C7. Whatever severity column the ranking is taken on: whenever the
    solver reports [Optimal], the district standing at any of the first five
    ranks of the descending ranking, unless it is the exempt one, is a row
    of the table and is allocated at least 1 and at most [District_Limit]
    units in total.  The priority set consists of exactly these districts,
    so it has at least [min 5 n - 1] members on a table of [n] rows; and on
    the script's own severity column the allocation is the one the script
    reports. *)
Theorem priority_districts_within_bounds
  (sort_values_desc : list float64 -> list nat)
  (solve : LpProblem -> Solution) (df : DataFrame)
  (severity : list float64) (m : LpProblem) (jaipur_idx : nat) :
  sort_values_spec sort_values_desc ->
  solver_spec solve ->
  length severity = length df ->
  build_model sort_values_desc df severity new_problem = Ok (tt, m) ->
  hd_error (jaipur_labels df) = Some jaipur_idx ->
  status (solve m) = LpStatusOptimal ->
  let out := collect_results sort_values_desc df severity (solve m) in
  let ranking := sort_values_desc severity in
  (severity = Weighted_Severity df ->
   run_script sort_values_desc solve df = Ok out) /\
  (forall i : nat,
     In i (top5_excluding_jaipur sort_values_desc severity jaipur_idx) <->
     exists k : nat,
       (k < 5)%nat /\ nth_error ranking k = Some i /\ i <> jaipur_idx) /\
  (Nat.min 5 (length df) - 1
   <= length (top5_excluding_jaipur sort_values_desc severity jaipur_idx))%nat /\
  (forall k i : nat,
     (k < 5)%nat -> nth_error ranking k = Some i -> i <> jaipur_idx ->
     (i < length df)%nat /\
     1 <= nth i (Police_Allocated out) 0 + nth i (Awareness_Campaigns out) 0
       <= District_Limit).
Proof.
  intros Hsort Hsolve Hlen Hbuild Hj Hopt out ranking.
  assert (Hmem : forall i : nat,
    In i (top5_excluding_jaipur sort_values_desc severity jaipur_idx) <->
    exists k : nat,
      (k < 5)%nat /\ nth_error ranking k = Some i /\ i <> jaipur_idx).
  { intros i. unfold top5_excluding_jaipur, top5.
    rewrite excluding_In, In_firstn_rank. subst ranking. split.
    - intros [(k & Hk & Hi) Hne]. exists k. auto.
    - intros (k & Hk & Hi & Hne). split; [exists k; auto | exact Hne]. }
  split; [| split; [exact Hmem | split]].
  - intros ->. now apply run_script_built.
  - unfold top5_excluding_jaipur.
    rewrite <- Hlen, <- (top5_length _ Hsort severity).
    apply excluding_length_ge, (top5_NoDup _ Hsort).
  - intros k i Hk Hrank Hne.
    assert (Hi : In i (top5_excluding_jaipur sort_values_desc severity
                         jaipur_idx)).
    { apply Hmem. exists k. auto. }
    destruct (build_model_constraints _ _ _ _ Hbuild) as (j & Hj' & Em).
    assert (j = jaipur_idx) by congruence. subst j.
    assert (Hlt : (i < length df)%nat).
    { pose proof Hi as Hi'. apply excluding_In in Hi'.
      destruct Hi' as [Hi' _].
      apply (top5_in_index _ Hsort) in Hi'. now rewrite Hlen in Hi'. }
    split; [exact Hlt |].
    destruct (constraint_set_priority df _ jaipur_idx i Hi) as [Hmin Hmax].
    rewrite <- Em in Hmin, Hmax.
    pose proof (feasible_constraint _ _ _ (Hsolve m Hopt) Hmin) as Cmin.
    pose proof (feasible_constraint _ _ _ (Hsolve m Hopt) Hmax) as Cmax.
    unfold satisfies, Top5_Min_Resource in Cmin.
    unfold satisfies, Top5_Max_Resource in Cmax.
    cbn [sense lhs rhs] in Cmin, Cmax.
    rewrite eval_pair in Cmin, Cmax.
    apply Z.leb_le in Cmin, Cmax.
    subst out. cbn [collect_results Police_Allocated Awareness_Campaigns].
    unfold index. rewrite !allocated_at by exact Hlt.
    split; assumption.
Qed.

(** On the sample table the ranking is 1, 3, 2, 0, 4, 5, 6 and the exempt
    district is row 1: rows 3, 2, 0 and 4 are the priority set, and each of
    them is reported with 1 to 30 units. *)
Lemma priority_districts_within_bounds_witness :
  stable_sort_desc (Weighted_Severity df_demo) = [1; 3; 2; 0; 4; 5; 6]%nat /\
  exists out : Output,
    run_script stable_sort_desc (checking_solver demo_allocation) df_demo
      = Ok out /\
    (forall i : nat,
       In i (top5_excluding_jaipur stable_sort_desc
               (Weighted_Severity df_demo) 1) <->
       In i [3; 2; 0; 4]%nat) /\
    (1 <= nth 3 (Police_Allocated out) 0 + nth 3 (Awareness_Campaigns out) 0
       <= District_Limit) /\
    (1 <= nth 2 (Police_Allocated out) 0 + nth 2 (Awareness_Campaigns out) 0
       <= District_Limit) /\
    (1 <= nth 0 (Police_Allocated out) 0 + nth 0 (Awareness_Campaigns out) 0
       <= District_Limit) /\
    (1 <= nth 4 (Police_Allocated out) 0 + nth 4 (Awareness_Campaigns out) 0
       <= District_Limit).
Proof.
  split; [vm_compute; reflexivity |].
  destruct (priority_districts_within_bounds
              stable_sort_desc (checking_solver demo_allocation) df_demo
              (Weighted_Severity df_demo)
              (match build_model stable_sort_desc df_demo
                       (Weighted_Severity df_demo) new_problem with
               | Ok (_, m) => m
               | Raise _ => new_problem
               end)
              1%nat
              stable_sort_desc_spec
              (checking_solver_spec demo_allocation))
    as (Hrun & Hmem & _ & Hbound);
    [ vm_compute; reflexivity | vm_compute; reflexivity
    | vm_compute; reflexivity | vm_compute; reflexivity |].
  eexists. split; [apply Hrun; reflexivity |].
  split.
  - intros i. rewrite Hmem. split.
    + intros (k & Hk & Hi & Hne).
      do 5 (destruct k as [|k];
            [vm_compute in Hi; injection Hi as <-;
             first [congruence | simpl; tauto] |]).
      lia.
    + intros Hi. simpl in Hi.
      destruct Hi as [<- | [<- | [<- | [<- | []]]]].
      * exists 1%nat. repeat split; [lia | discriminate].
      * exists 2%nat. repeat split; [lia | discriminate].
      * exists 3%nat. repeat split; [lia | discriminate].
      * exists 4%nat. repeat split; [lia | discriminate].
  - repeat split.
    all: first
      [ apply (Hbound 1%nat 3%nat); [lia | reflexivity | discriminate]
      | apply (Hbound 2%nat 2%nat); [lia | reflexivity | discriminate]
      | apply (Hbound 3%nat 0%nat); [lia | reflexivity | discriminate]
      | apply (Hbound 4%nat 4%nat); [lia | reflexivity | discriminate] ].
Defined.

(** C5. In every problem the builder produces, the police and the awareness
    variable of the exempt district each carry a lower and an upper bound of
    their own.  These bounds confine the variables to 40..50 and 30..40, a
    proper part of what the variable bound and the general per-district cap
    allow; they are present whatever the priority set is, which never
    contains the exempt district; and the general caps on the exempt
    district stay in the constraint set, so that nothing is relaxed. *)
Theorem exempt_district_bounds
  (sort_values_desc : list float64 -> list nat)
  (df : DataFrame) (severity : list float64) (m : LpProblem)
  (jaipur_idx : nat) :
  build_model sort_values_desc df severity new_problem = Ok (tt, m) ->
  hd_error (jaipur_labels df) = Some jaipur_idx ->
  (In (Jaipur_Max_Police jaipur_idx) (constraints m) /\
   In (Jaipur_Max_Awareness jaipur_idx) (constraints m) /\
   In (Jaipur_Min_Police jaipur_idx) (constraints m) /\
   In (Jaipur_Min_Awareness jaipur_idx) (constraints m)) /\
  (In (Max_Police_Per_District jaipur_idx) (constraints m) /\
   In (Max_Awareness_Per_District jaipur_idx) (constraints m)) /\
  ~ In jaipur_idx (top5_excluding_jaipur sort_values_desc severity jaipur_idx)
  /\
  (forall v : LpVariable -> Z,
     satisfies v (Jaipur_Max_Police jaipur_idx) = true ->
     satisfies v (Jaipur_Max_Awareness jaipur_idx) = true ->
     satisfies v (Jaipur_Min_Police jaipur_idx) = true ->
     satisfies v (Jaipur_Min_Awareness jaipur_idx) = true ->
     (40 <= v (x jaipur_idx) <= 50 /\ 30 <= v (z jaipur_idx) <= 40) /\
     satisfies v (Max_Police_Per_District jaipur_idx) = true /\
     satisfies v (Max_Awareness_Per_District jaipur_idx) = true) /\
  (exists v : LpVariable -> Z,
     satisfies v (Max_Police_Per_District jaipur_idx) = true /\
     satisfies v (Max_Awareness_Per_District jaipur_idx) = true /\
     lowBound (x jaipur_idx) <= v (x jaipur_idx) /\
     lowBound (z jaipur_idx) <= v (z jaipur_idx) /\
     satisfies v (Jaipur_Min_Police jaipur_idx) = false /\
     satisfies v (Jaipur_Min_Awareness jaipur_idx) = false).
Proof.
  intros Hbuild Hj.
  destruct (build_model_constraints _ _ _ _ Hbuild) as (j & Hj' & Em).
  assert (j = jaipur_idx) by congruence. subst j.
  assert (Hlt : (jaipur_idx < length df)%nat).
  { apply jaipur_labels_in_index.
    destruct (jaipur_labels df); [discriminate |].
    injection Hj as ->. now left. }
  rewrite Em.
  split; [apply constraint_set_jaipur |].
  split; [now apply constraint_set_caps |].
  split; [unfold top5_excluding_jaipur; rewrite excluding_In; tauto |].
  split.
  - intros v. unfold satisfies, Jaipur_Max_Police, Jaipur_Max_Awareness,
      Jaipur_Min_Police, Jaipur_Min_Awareness, Max_Police_Per_District,
      Max_Awareness_Per_District.
    cbn [sense lhs rhs]. rewrite !eval_var, !Z.leb_le. lia.
  - exists (fun _ => 0).
    unfold satisfies, Jaipur_Min_Police, Jaipur_Min_Awareness,
      Max_Police_Per_District, Max_Awareness_Per_District.
    cbn [sense lhs rhs]. rewrite !eval_var. simpl. repeat split; lia.
Qed.

Lemma exempt_district_bounds_witness :
  exists m : LpProblem,
    build_model stable_sort_desc df_demo (Weighted_Severity df_demo)
      new_problem = Ok (tt, m) /\
    In (Jaipur_Min_Police 1) (constraints m) /\
    In (Max_Police_Per_District 1) (constraints m).
Proof.
  eexists. split; [vm_compute; reflexivity |].
  pose proof (exempt_district_bounds stable_sort_desc df_demo
                (Weighted_Severity df_demo) _ 1%nat
                ltac:(vm_compute; reflexivity) ltac:(vm_compute; reflexivity))
    as H.
  split; [apply H | apply H].
Defined.

(** C8 (amended). If no row of the table is named Jaipur, the row lookup
    of the builder raises Python's [IndexError]; no problem is handed to
    the solver and the script ends with that exception.  This is stated for
    tables whose severities are finite. *)
Theorem missing_exempt_district_raises_IndexError
  (sort_values_desc : list float64 -> list nat)
  (solve : LpProblem -> Solution) (df : DataFrame) :
  Forall (fun v => isfinite v = true) (Weighted_Severity df) ->
  Forall (fun r => District r <> "Jaipur"%string) df ->
  build_model sort_values_desc df (Weighted_Severity df) new_problem
    = Raise IndexError /\
  run_script sort_values_desc solve df = Raise IndexError.
Proof.
  intros _ Hno.
  assert (H : build_model sort_values_desc df (Weighted_Severity df)
                new_problem = Raise IndexError).
  { rewrite build_model_result. now rewrite (jaipur_labels_none df Hno). }
  split; [exact H | now apply run_script_not_built].
Qed.

Lemma missing_exempt_district_raises_IndexError_witness :
  build_model stable_sort_desc df_no_jaipur (Weighted_Severity df_no_jaipur)
    new_problem = Raise IndexError /\
  run_script stable_sort_desc (checking_solver demo_allocation) df_no_jaipur
    = Raise IndexError.
Proof.
  apply missing_exempt_district_raises_IndexError.
  - repeat constructor.
  - repeat constructor; discriminate.
Defined.

(** C8, as stated, fails: on a table without Jaipur the builder raises
    [IndexError], which is not an [InfeasibleSpecificationError]. *)
Lemma missing_exempt_district_error_class :
  Forall (fun r => District r <> "Jaipur"%string) df_no_jaipur /\
  build_model stable_sort_desc df_no_jaipur (Weighted_Severity df_no_jaipur)
    new_problem = Raise IndexError /\
  exn_class IndexError <> "InfeasibleSpecificationError"%string.
Proof.
  split; [repeat constructor; discriminate |].
  split; [reflexivity | discriminate].
Qed.

Lemma NoDup_app_disjoint {A : Type} (l1 l2 : list A) (a : A) :
  NoDup (l1 ++ l2) -> In a l1 -> ~ In a l2.
Proof.
  induction l1 as [|b l1 IH]; intros Hnd Hin; [contradiction |].
  simpl in Hnd. inversion Hnd as [|? ? Hb Hnd']; subst.
  destruct Hin as [-> | Hin].
  - intros H2. apply Hb, in_or_app. now right.
  - now apply IH.
Qed.

Lemma firstn_excludes_later {A : Type} (l : list A) (n k : nat) (a : A) :
  NoDup l -> (n <= k)%nat -> nth_error l k = Some a -> ~ In a (firstn n l).
Proof.
  intros Hnd Hk Hn Hin.
  rewrite <- (firstn_skipn n l) in Hnd.
  apply (NoDup_app_disjoint _ _ a Hnd Hin).
  apply (nth_error_In _ (k - n)). rewrite nth_error_skipn.
  now replace (n + (k - n))%nat with k by lia.
Qed.

(** C10. The priority set is what is left of the five highest-ranked
    labels once the exempt district is removed.  When the exempt district
    is among those five, the priority set has one member less than they
    (four on a table of five or more districts): all its members come from
    the first five ranks, and no district ranked sixth or lower is in it. *)
Theorem exempt_district_not_replaced
  (sort_values_desc : list float64 -> list nat)
  (df : DataFrame) (jaipur_idx : nat) :
  sort_values_spec sort_values_desc ->
  hd_error (jaipur_labels df) = Some jaipur_idx ->
  In jaipur_idx (top5 sort_values_desc (Weighted_Severity df)) ->
  let ranking := sort_values_desc (Weighted_Severity df) in
  let priority :=
    top5_excluding_jaipur sort_values_desc (Weighted_Severity df) jaipur_idx in
  priority = excluding jaipur_idx (firstn 5 ranking) /\
  length priority = (Nat.min 5 (length df) - 1)%nat /\
  ((5 <= length df)%nat -> length priority = 4%nat) /\
  (forall i : nat, In i priority -> In i (firstn 5 ranking)) /\
  (forall (k i : nat),
     (5 <= k)%nat -> nth_error ranking k = Some i -> ~ In i priority).
Proof.
  intros Hsort _ Hin ranking priority.
  assert (Hlen : length priority = (Nat.min 5 (length df) - 1)%nat).
  { unfold priority, top5_excluding_jaipur.
    rewrite excluding_length;
      [| now apply top5_NoDup | exact Hin].
    now rewrite (top5_length _ Hsort), Weighted_Severity_length. }
  split; [reflexivity |].
  split; [exact Hlen |].
  split; [intros H5; rewrite Hlen; lia |].
  split.
  - intros i Hi. apply excluding_In in Hi. exact (proj1 Hi).
  - intros k i Hk Hnth Hi. apply excluding_In in Hi. destruct Hi as [Hi _].
    revert Hi. apply (firstn_excludes_later _ 5 k); [| exact Hk | exact Hnth].
    now apply sorted_labels_NoDup.
Qed.

Lemma exempt_district_not_replaced_witness :
  let ranking := stable_sort_desc (Weighted_Severity df_demo) in
  let priority :=
    top5_excluding_jaipur stable_sort_desc (Weighted_Severity df_demo) 1 in
  priority = excluding 1 (firstn 5 ranking) /\
  length priority = (Nat.min 5 (length df_demo) - 1)%nat /\
  ((5 <= length df_demo)%nat -> length priority = 4%nat) /\
  (forall i : nat, In i priority -> In i (firstn 5 ranking)) /\
  (forall (k i : nat),
     (5 <= k)%nat -> nth_error ranking k = Some i -> ~ In i priority).
Proof.
  apply exempt_district_not_replaced.
  - apply stable_sort_desc_spec.
  - vm_compute. reflexivity.
  - vm_compute. tauto.
Defined.

(** ** Which districts are ranked first *)

Lemma firstn_StronglySorted {A : Type} (R : A -> A -> Prop) (n : nat)
  (l : list A) :
  StronglySorted R l -> StronglySorted R (firstn n l).
Proof.
  intros H. revert n. induction H as [|a l Hs IH Ha]; intros [|n]; simpl;
    try constructor.
  - apply IH.
  - rewrite Forall_forall in *. intros b Hb. apply Ha.
    rewrite <- (firstn_skipn n l). apply in_or_app. now left.
Qed.

(** Without ties there is only one way to sort. *)
Lemma sort_values_unique (sort1 sort2 : list float64 -> list nat)
  (col : list float64) :
  sort_values_spec sort1 -> sort_values_spec sort2 -> no_ties col ->
  sort1 col = sort2 col.
Proof.
  intros H1 H2 Hnt.
  destruct (H1 col) as [P1 S1]. destruct (H2 col) as [P2 S2].
  apply (sorted_perm_unique _ _ _) with (3 := S2); [| exact S1 |].
  - intros a b Ha Hb. apply Hnt; now apply (sorted_label_range _ H1).
  - now rewrite <- P1.
Qed.

(** C4 (amended). The priority set is taken from the districts sorted by
    severity in descending order, and it is a function of the table.
    Whatever the severity column is: when no two of its rows have the same
    value, every sorting algorithm yields the same ranking and the same
    priority set as the stable one; what happens on exact ties is left to
    the sorting algorithm of the library, which the script does not ask to
    be stable. *)
Theorem priority_set_without_ties
  (sort_values_desc : list float64 -> list nat)
  (severity : list float64) (jaipur_idx : nat) :
  sort_values_spec sort_values_desc ->
  StronglySorted
    (fun i j => key_ge (loc severity i) (loc severity j) = true)
    (top5 sort_values_desc severity) /\
  (no_ties severity ->
   top5 sort_values_desc severity = top5 stable_sort_desc severity /\
   top5_excluding_jaipur sort_values_desc severity jaipur_idx
   = top5_excluding_jaipur stable_sort_desc severity jaipur_idx).
Proof.
  intros Hsort. split.
  - apply firstn_StronglySorted. apply (Hsort severity).
  - intros Hnt. unfold top5_excluding_jaipur, top5.
    now rewrite (sort_values_unique sort_values_desc stable_sort_desc _
                   Hsort stable_sort_desc_spec Hnt).
Qed.

Lemma priority_set_without_ties_witness :
  no_ties (Weighted_Severity df_demo) /\
  top5_excluding_jaipur reversing_sort_desc (Weighted_Severity df_demo) 1
  = top5_excluding_jaipur stable_sort_desc (Weighted_Severity df_demo) 1.
Proof.
  assert (Hnt : no_ties (Weighted_Severity df_demo)).
  { intros i j Hi Hj.
    change (length (Weighted_Severity df_demo)) with 7%nat in Hi, Hj.
    do 7 (destruct i as [|i]; [do 7 (destruct j as [|j];
      [vm_compute; try reflexivity; discriminate |]); exfalso; lia |]).
    exfalso; lia. }
  split; [exact Hnt |].
  apply (priority_set_without_ties reversing_sort_desc
           (Weighted_Severity df_demo) 1%nat reversing_sort_desc_spec).
  exact Hnt.
Defined.

(** On the two small sample tables the default sort returns the ranking of
    the stable sort: a block of at most [SMALL_QUICKSORT + 1] entries is
    sorted by insertion only. *)
Remark default_sort_on_small_tables :
  nargsort_desc (Weighted_Severity df_demo)
  = Some (stable_sort_desc (Weighted_Severity df_demo)) /\
  nargsort_desc (Weighted_Severity df_ties)
  = Some (stable_sort_desc (Weighted_Severity df_ties)) /\
  top5_excluding_jaipur pandas_sort_values_desc (Weighted_Severity df_ties) 0
  = [1; 2; 3; 4]%nat.
Proof. repeat split; vm_compute; reflexivity. Qed.

(** C4, as stated, fails: the default sort does not keep tied districts in
    input order once it partitions.  On the table of thirty-three districts
    the exempt one is first and districts 1, 4, 7, 10, ... , 31 are tied on
    the second-highest severity.  The default sort returns a ranking of the
    whole index that carries the same severities at its first five ranks as
    the stable ranking does, but the priority set it selects is not the one
    of the stable sort, which consists of districts 1, 4, 7 and 10. *)
Lemma default_sort_breaks_tie_order :
  let severity := Weighted_Severity df_levels in
  hd_error (jaipur_labels df_levels) = Some 0%nat /\
  (forall i : nat,
     In i [1; 4; 7; 10; 13; 16; 19; 22; 25; 28; 31]%nat ->
     loc severity i = loc severity 1) /\
  (exists ranking : list nat,
     nargsort_desc severity = Some ranking /\
     length ranking = length df_levels /\
     map (loc severity) (firstn 5 ranking)
     = map (loc severity) (top5 stable_sort_desc severity)) /\
  top5_excluding_jaipur stable_sort_desc severity 0 = [1; 4; 7; 10]%nat /\
  top5_excluding_jaipur pandas_sort_values_desc severity 0
  <> top5_excluding_jaipur stable_sort_desc severity 0.
Proof.
  cbv zeta. split; [vm_compute; reflexivity |].
  split.
  { intros i Hi. simpl in Hi.
    repeat (destruct Hi as [<- | Hi]; [vm_compute; reflexivity |]).
    contradiction. }
  split.
  { eexists. split; [vm_compute; reflexivity |].
    split; vm_compute; reflexivity. }
  split; [vm_compute; reflexivity |].
  intros H. vm_compute in H. discriminate H.
Qed.

(** ** Result Aggregator *)

(** [Series.max()] is [NaN] on a series of [NaN]s and otherwise an entry
    that is not [NaN] and bounds every other such entry. *)
Lemma Series_max_spec (col : list float64) :
  (Forall (fun v => v = NaN) col /\ Series_max col = NaN) \/
  (In (Series_max col) col /\ isnan (Series_max col) = false /\
   forall v, In v col -> isnan v = false -> fle v (Series_max col) = true).
Proof.
  induction col as [|a col IH]; [left; split; [constructor | reflexivity] |].
  change (Series_max (a :: col)) with (fmax_skipna a (Series_max col)).
  destruct IH as [[Hall E] | (Hin & Hnn & Hub)].
  - rewrite E. destruct a as [q| | |].
    + right. simpl. repeat split; [now left |].
      intros v [<- | Hv] Hv'; [apply fle_refl; reflexivity |].
      rewrite Forall_forall in Hall. rewrite (Hall v Hv) in Hv'. discriminate.
    + right. simpl. repeat split; [now left |].
      intros v [<- | Hv] Hv'; [reflexivity |].
      rewrite Forall_forall in Hall. rewrite (Hall v Hv) in Hv'. discriminate.
    + right. simpl. repeat split; [now left |].
      intros v [<- | Hv] Hv'; [reflexivity |].
      rewrite Forall_forall in Hall. rewrite (Hall v Hv) in Hv'. discriminate.
    + left. split; [constructor; [reflexivity | exact Hall] | reflexivity].
  - right. set (M := Series_max col) in *.
    destruct (isnan a) eqn:Ea.
    + destruct a; try discriminate. simpl.
      repeat split; [now right | exact Hnn |].
      intros v [<- | Hv] Hv'; [discriminate | now apply Hub].
    + assert (Ef : fmax_skipna a M = if fle a M then M else a).
      { destruct a, M; try discriminate; reflexivity. }
      rewrite Ef. destruct (fle a M) eqn:Hc.
      * repeat split; [now right | exact Hnn |].
        intros v [<- | Hv] Hv'; [exact Hc | now apply Hub].
      * assert (HMa : fle M a = true).
        { destruct (fle_total a M Ea Hnn) as [H | H]; congruence. }
        repeat split; [now left | exact Ea |].
        intros v [<- | Hv] Hv'; [now apply fle_refl |].
        eapply fle_trans; [apply Hub; assumption | exact HMa].
Qed.

Lemma loc_In (col : list float64) (i : nat) :
  (i < length col)%nat -> In (loc col i) col.
Proof. intros H. unfold loc. now apply nth_In. Qed.

Lemma In_loc (col : list float64) (v : float64) :
  In v col -> exists i, (i < length col)%nat /\ loc col i = v.
Proof. intros H. unfold loc. now apply In_nth. Qed.

Lemma loc_map_float (f : float64 -> float64) (col : list float64) (i : nat) :
  (i < length col)%nat -> loc (map f col) i = f (loc col i).
Proof. intros H. unfold loc at 2. now apply loc_map. Qed.

(** The first label of a sorted column points at its maximum. *)
Lemma head_of_sorted_is_max (sort : list float64 -> list nat)
  (col : list float64) (i : nat) :
  sort_values_spec sort -> hd_error (sort col) = Some i ->
  (i < length col)%nat /\ feq (loc col i) (Series_max col).
Proof.
  intros Hsort Hhd.
  destruct (sort col) as [|i' rest] eqn:E; [discriminate |].
  injection Hhd as ->.
  assert (Hi : (i < length col)%nat).
  { apply (sorted_label_range _ Hsort). rewrite E. now left. }
  split; [exact Hi |].
  assert (Hge : forall j, (j < length col)%nat ->
                  j <> i -> key_ge (loc col i) (loc col j) = true).
  { intros j Hj Hne. destruct (Hsort col) as [_ Hs]. rewrite E in Hs.
    apply StronglySorted_inv in Hs. destruct Hs as [_ Hall].
    rewrite Forall_forall in Hall. apply Hall.
    apply (sorted_label_range _ Hsort) in Hj. rewrite E in Hj.
    destruct Hj as [-> | Hj]; [congruence | exact Hj]. }
  destruct (Series_max_spec col) as [[Hall EM] | (Hin & Hnn & Hub)].
  - rewrite EM. rewrite Forall_forall in Hall.
    now rewrite (Hall _ (loc_In col i Hi)).
  - destruct (In_loc _ _ Hin) as (j & Hj & Ej).
    destruct (Nat.eq_dec j i) as [-> | Hne]; [rewrite Ej; apply feq_refl |].
    specialize (Hge j Hj Hne). rewrite Ej in Hge.
    assert (Hle : fle (Series_max col) (loc col i) = true).
    { destruct (loc col i), (Series_max col); simpl in *;
        try discriminate; try reflexivity; exact Hge. }
    destruct (fle_not_nan _ _ Hle) as [_ Hnni].
    apply fle_antisym; [| exact Hle].
    apply Hub; [now apply loc_In | exact Hnni].
Qed.

(** C9 (amended). In the result table the district ranked first has a
    normalized impact of 100 whenever the maximum total impact is a finite
    number other than zero (in exact arithmetic; see
    [normalized_of_maximum_rounding] for binary64).  When the maximum total
    impact is zero nothing is raised: the division is carried out and the
    normalized impact of the district ranked first is [NaN]. *)
Theorem top_ranked_normalized_impact
  (sort_values_desc : list float64 -> list nat) (df : DataFrame)
  (sol : Solution) (i : nat) :
  sort_values_spec sort_values_desc ->
  hd_error
    (df_sorted
       (collect_results sort_values_desc df (Weighted_Severity df) sol))
    = Some i ->
  let out := collect_results sort_values_desc df (Weighted_Severity df) sol in
  (forall m : Q,
     is_fin (Series_max (Total_Impact_Score out)) m -> ~ (m == 0)%Q ->
     is_fin (loc (Normalized_Impact out) i) 100) /\
  (is_fin (Series_max (Total_Impact_Score out)) 0 ->
   loc (Normalized_Impact out) i = NaN).
Proof.
  intros Hsort Hhd out.
  set (impact := Total_Impact_Score out).
  assert (Hn : Normalized_Impact out
               = div_scalar (scalar_mul (Fin 100) impact) (Series_max impact))
    by reflexivity.
  assert (Hs : df_sorted out = sort_values_desc impact) by reflexivity.
  unfold out in Hs. rewrite Hs in Hhd.
  destruct (head_of_sorted_is_max _ _ _ Hsort Hhd) as [Hi Htop].
  rewrite Hn. unfold div_scalar, scalar_mul. rewrite map_map.
  rewrite loc_map_float by exact Hi.
  split.
  - intros m Hm Hnz.
    pose proof (feq_is_fin _ _ _ Htop Hm) as Ht.
    pose proof (is_fin_div _ _ _ _
                  (is_fin_mul _ _ _ _ (is_fin_Fin 100) Ht) Hm Hnz) as Hd.
    eapply is_fin_eq; [exact Hd |]. field. exact Hnz.
  - intros Hm.
    pose proof (feq_is_fin _ _ _ Htop Hm) as Ht.
    apply fdiv_zero_zero; [| exact Hm].
    eapply is_fin_eq; [apply (is_fin_mul _ _ _ _ (is_fin_Fin 100) Ht) |].
    ring.
Qed.

Lemma top_ranked_normalized_impact_witness :
  is_fin
    (loc (Normalized_Impact
            (collect_results stable_sort_desc df_demo
               (Weighted_Severity df_demo)
               (mkSolution LpStatusOptimal demo_allocation))) 1) 100 /\
  loc (Normalized_Impact
         (collect_results stable_sort_desc df_demo
            (Weighted_Severity df_demo)
            (mkSolution LpStatusInfeasible zero_allocation))) 0 = NaN.
Proof.
  split.
  - apply (proj1 (top_ranked_normalized_impact stable_sort_desc df_demo
                    (mkSolution LpStatusOptimal demo_allocation) 1%nat
                    stable_sort_desc_spec eq_refl) 70%Q).
    + exists 70%Q. split; [vm_compute; reflexivity | reflexivity].
    + intros H. discriminate H.
  - apply (proj2 (top_ranked_normalized_impact stable_sort_desc df_demo
                    (mkSolution LpStatusInfeasible zero_allocation) 0%nat
                    stable_sort_desc_spec eq_refl)).
    exists 0%Q. split; [vm_compute; reflexivity | reflexivity].
Defined.

(** In binary64 the quotient of the first-ranked row can miss 100 by one
    unit in the last place: for a maximum total impact of 0.17 it is
    99.99999999999999. *)
Remark normalized_of_maximum_rounding :
  Binary64.of_Z 100 = S754_finite false 7036874417766400 (-46) /\
  Binary64.normalized_of_maximum
    (Binary64.div (Binary64.of_Z 17) (Binary64.of_Z 100))
  = S754_finite false 7036874417766399 (-46).
Proof. split; vm_compute; reflexivity. Qed.

(** C9, as stated, fails: when every allocation is zero the maximum total
    impact is zero, the script still returns a table, and the normalized
    impact of every district, the first-ranked included, is [NaN]. *)
Lemma zero_impact_not_reported :
  let out :=
    collect_results stable_sort_desc df_demo (Weighted_Severity df_demo)
      (mkSolution LpStatusInfeasible zero_allocation) in
  run_script stable_sort_desc
    (constant_solver LpStatusInfeasible zero_allocation) df_demo = Ok out /\
  Series_max (Total_Impact_Score out) = Fin 0 /\
  hd_error (df_sorted out) = Some 0%nat /\
  Normalized_Impact out = [NaN; NaN; NaN; NaN; NaN; NaN; NaN].
Proof. repeat split; vm_compute; reflexivity. Qed.

(** ** The solver status *)

(** C1 (amended). Once the problem is built, the script never looks at the
    status the solver reports: whatever it is, [INFEASIBLE] and [UNBOUNDED]
    included, no exception is raised and the allocation columns are filled
    with the values the solver left in the variables; the result table
    is the one an [OPTIMAL] status with the same values would give.
    (Stated for tables whose severities are finite.) *)
Theorem solver_status_not_inspected
  (sort_values_desc : list float64 -> list nat)
  (solve : LpProblem -> Solution) (df : DataFrame) (m : LpProblem) :
  Forall (fun v => isfinite v = true) (Weighted_Severity df) ->
  build_model sort_values_desc df (Weighted_Severity df) new_problem
    = Ok (tt, m) ->
  exists out : Output,
    run_script sort_values_desc solve df = Ok out /\
    Police_Allocated out
    = map (fun i => varValue (solve m) (x i)) (index df) /\
    Awareness_Campaigns out
    = map (fun i => varValue (solve m) (z i)) (index df) /\
    forall st : LpStatus,
      out = collect_results sort_values_desc df (Weighted_Severity df)
              (mkSolution st (varValue (solve m))).
Proof.
  intros _ Hbuild.
  exists (collect_results sort_values_desc df (Weighted_Severity df) (solve m)).
  split; [now apply run_script_built |].
  repeat split.
Qed.

Lemma solver_status_not_inspected_witness :
  exists out : Output,
    run_script stable_sort_desc
      (constant_solver LpStatusUnbounded demo_allocation) df_demo = Ok out /\
    Police_Allocated out = [1; 40; 1; 1; 1; 1; 1] /\
    Awareness_Campaigns out = [0; 30; 0; 0; 0; 0; 0].
Proof.
  destruct (solver_status_not_inspected stable_sort_desc
              (constant_solver LpStatusUnbounded demo_allocation) df_demo _
              ltac:(repeat constructor) ltac:(vm_compute; reflexivity))
    as (out & Hrun & Hp & Ha & _).
  exists out. split; [exact Hrun |]. split; [exact Hp | exact Ha].
Defined.

(** C1, as stated, fails: with a solver that reports [INFEASIBLE] (or
    [UNBOUNDED]) the script raises nothing and fills the allocation columns
    from the values found in the variables. *)
Lemma infeasible_status_still_populates :
  solver_spec (constant_solver LpStatusInfeasible zero_allocation) /\
  exists (m : LpProblem) (out : Output),
    build_model stable_sort_desc df_demo (Weighted_Severity df_demo)
      new_problem = Ok (tt, m) /\
    status (constant_solver LpStatusInfeasible zero_allocation m)
      = LpStatusInfeasible /\
    run_script stable_sort_desc
      (constant_solver LpStatusInfeasible zero_allocation) df_demo = Ok out /\
    run_script stable_sort_desc
      (constant_solver LpStatusUnbounded zero_allocation) df_demo = Ok out /\
    Police_Allocated out = [0; 0; 0; 0; 0; 0; 0] /\
    Awareness_Campaigns out = [0; 0; 0; 0; 0; 0; 0].
Proof.
  split; [apply constant_solver_spec; discriminate |].
  eexists. eexists.
  split; [vm_compute; reflexivity |].
  split; [reflexivity |].
  split; [vm_compute; reflexivity |].
  repeat split.
Qed.

(** * Further properties of the script *)

(** ** What an optimal solution satisfies *)

Lemma eval_sum_vars (v : LpVariable -> Z) (f : nat -> LpVariable)
  (l : list nat) :
  eval v (lpSum (map (fun i => var (f i)) l))
  = Series_sum (map (fun i => v (f i)) l).
Proof.
  unfold lpSum. induction l as [|i l IH]; [reflexivity |].
  rewrite !map_cons, concat_cons, eval_app, IH, eval_var. reflexivity.
Qed.

Lemma feasible_bounds (v : LpVariable -> Z) (m : LpProblem)
  (c : LpConstraint) (t : Z * LpVariable) :
  feasible v m = true -> In c (constraints m) -> In t (lhs c) ->
  lowBound (snd t) <= v (snd t).
Proof.
  unfold feasible. rewrite forallb_forall. intros H Hc Ht.
  specialize (H c Hc). apply andb_true_iff in H. destruct H as [_ H].
  unfold within_bounds in H. rewrite forallb_forall in H.
  apply Z.leb_le. now apply H.
Qed.

Lemma Series_sum_ge_member (l : list Z) (a : Z) :
  Forall (fun b => 0 <= b) l -> In a l -> a <= Series_sum l.
Proof.
  unfold Series_sum. induction 1 as [|b l Hb Hl IH]; intros Hin;
    [contradiction |].
  assert (0 <= fold_right Z.add 0 l) by (clear -Hl; induction Hl; simpl; lia).
  simpl. destruct Hin as [-> | Hin]; [lia |]. specialize (IH Hin). lia.
Qed.

Section OptimalSolution.

Variable sort_values_desc : list float64 -> list nat.
Variable solve : LpProblem -> Solution.
Variable df : DataFrame.
Variable m : LpProblem.

Hypothesis solve_ok : solver_spec solve.
Hypothesis built :
  build_model sort_values_desc df (Weighted_Severity df) new_problem
  = Ok (tt, m).
Hypothesis optimal : status (solve m) = LpStatusOptimal.

Let out : Output :=
  collect_results sort_values_desc df (Weighted_Severity df) (solve m).

Lemma optimal_run : run_script sort_values_desc solve df = Ok out.
Proof. now apply run_script_built. Qed.

Lemma optimal_nonnegative (i : nat) :
  (i < length df)%nat ->
  0 <= varValue (solve m) (x i) /\ 0 <= varValue (solve m) (z i).
Proof.
  intros Hi.
  destruct (build_model_constraints _ _ _ _ built) as (j & _ & Em).
  destruct (constraint_set_caps df
              (top5_excluding_jaipur sort_values_desc (Weighted_Severity df) j)
              j i Hi) as [Hp Ha].
  rewrite <- Em in Hp, Ha.
  split.
  - apply (feasible_bounds _ _ _ (1, x i) (solve_ok m optimal) Hp).
    simpl. now left.
  - apply (feasible_bounds _ _ _ (1, z i) (solve_ok m optimal) Ha).
    simpl. now left.
Qed.

Lemma optimal_caps (i : nat) :
  (i < length df)%nat ->
  varValue (solve m) (x i) <= 50 /\ varValue (solve m) (z i) <= 40.
Proof.
  intros Hi.
  destruct (build_model_constraints _ _ _ _ built) as (j & _ & Em).
  destruct (constraint_set_caps df
              (top5_excluding_jaipur sort_values_desc (Weighted_Severity df) j)
              j i Hi) as [Hp Ha].
  rewrite <- Em in Hp, Ha.
  pose proof (feasible_constraint _ _ _ (solve_ok m optimal) Hp) as Cp.
  pose proof (feasible_constraint _ _ _ (solve_ok m optimal) Ha) as Ca.
  unfold satisfies, Max_Police_Per_District in Cp.
  unfold satisfies, Max_Awareness_Per_District in Ca.
  cbn [sense lhs rhs] in Cp, Ca. rewrite eval_var in Cp, Ca.
  apply Z.leb_le in Cp, Ca. now split.
Qed.

(** X1. Whenever the solver reports [Optimal], the totals of the result
    table respect the two global caps: at most [X_max] police units and at
    most [Z_max] awareness campaigns over all districts. *)
Theorem global_caps_respected :
  exists o : Output,
    run_script sort_values_desc solve df = Ok o /\
    Series_sum (Police_Allocated o) <= X_max /\
    Series_sum (Awareness_Campaigns o) <= Z_max.
Proof.
  exists out. split; [apply optimal_run |].
  destruct (build_model_constraints _ _ _ _ built) as (j & _ & Em).
  assert (Hp : In (Max_Police df) (constraints m))
    by (rewrite Em; unfold constraint_set; simpl; auto).
  assert (Ha : In (Max_Awareness df) (constraints m))
    by (rewrite Em; unfold constraint_set; simpl; auto).
  pose proof (feasible_constraint _ _ _ (solve_ok m optimal) Hp) as Cp.
  pose proof (feasible_constraint _ _ _ (solve_ok m optimal) Ha) as Ca.
  unfold satisfies, Max_Police in Cp. unfold satisfies, Max_Awareness in Ca.
  cbn [sense lhs rhs] in Cp, Ca. rewrite eval_sum_vars in Cp, Ca.
  apply Z.leb_le in Cp, Ca. split; assumption.
Qed.

(** X2. Whenever the solver reports [Optimal], every district of the
    result table is allocated between 0 and 50 police units and between 0
    and 40 awareness campaigns. *)
Theorem per_district_caps_respected :
  exists o : Output,
    run_script sort_values_desc solve df = Ok o /\
    length (Police_Allocated o) = length df /\
    length (Awareness_Campaigns o) = length df /\
    Forall (fun p => 0 <= p <= 50) (Police_Allocated o) /\
    Forall (fun a => 0 <= a <= 40) (Awareness_Campaigns o).
Proof.
  exists out. split; [apply optimal_run |].
  unfold out. cbn [collect_results Police_Allocated Awareness_Campaigns].
  unfold index. rewrite !length_map, !length_seq.
  repeat split; rewrite Forall_map, Forall_forall; intros i Hi;
    apply in_seq in Hi;
    assert (Hlt : (i < length df)%nat) by lia;
    pose proof (optimal_nonnegative i Hlt);
    pose proof (optimal_caps i Hlt); lia.
Qed.

Lemma jaipur_label_in_index (jaipur_idx : nat) :
  hd_error (jaipur_labels df) = Some jaipur_idx ->
  (jaipur_idx < length df)%nat.
Proof.
  intros Hj. apply jaipur_labels_in_index.
  destruct (jaipur_labels df); [discriminate |].
  injection Hj as ->. now left.
Qed.

Lemma optimal_jaipur (jaipur_idx : nat) :
  hd_error (jaipur_labels df) = Some jaipur_idx ->
  40 <= varValue (solve m) (x jaipur_idx) <= 50 /\
  30 <= varValue (solve m) (z jaipur_idx) <= 40.
Proof.
  intros Hj.
  destruct (build_model_constraints _ _ _ _ built) as (j & Hj' & Em).
  assert (j = jaipur_idx) by congruence. subst j.
  destruct (constraint_set_jaipur df
              (top5_excluding_jaipur sort_values_desc (Weighted_Severity df)
                 jaipur_idx) jaipur_idx) as (H1 & H2 & H3 & H4).
  rewrite <- Em in H1, H2, H3, H4.
  pose proof (feasible_constraint _ _ _ (solve_ok m optimal) H1) as C1.
  pose proof (feasible_constraint _ _ _ (solve_ok m optimal) H2) as C2.
  pose proof (feasible_constraint _ _ _ (solve_ok m optimal) H3) as C3.
  pose proof (feasible_constraint _ _ _ (solve_ok m optimal) H4) as C4.
  unfold satisfies, Jaipur_Max_Police, Jaipur_Max_Awareness,
    Jaipur_Min_Police, Jaipur_Min_Awareness in C1, C2, C3, C4.
  cbn [sense lhs rhs] in C1, C2, C3, C4.
  rewrite eval_var in C1, C2, C3, C4. apply Z.leb_le in C1, C2, C3, C4.
  lia.
Qed.

(** X3. Whenever the solver reports [Optimal], the exempt district, the
    first row named Jaipur, is allocated 40 to 50 police units and 30 to 40
    awareness campaigns. *)
Theorem exempt_district_allocation (jaipur_idx : nat) :
  hd_error (jaipur_labels df) = Some jaipur_idx ->
  exists o : Output,
    run_script sort_values_desc solve df = Ok o /\
    40 <= nth jaipur_idx (Police_Allocated o) 0 <= 50 /\
    30 <= nth jaipur_idx (Awareness_Campaigns o) 0 <= 40.
Proof.
  intros Hj. exists out. split; [apply optimal_run |].
  pose proof (jaipur_label_in_index _ Hj) as Hlt.
  unfold out. cbn [collect_results Police_Allocated Awareness_Campaigns].
  unfold index. rewrite !allocated_at by exact Hlt.
  now apply optimal_jaipur.
Qed.

(** X4. Whenever the solver reports [Optimal], the budget the summary
    reports as used is at least 260: the minima of the exempt district
    alone take 40 police units and 30 campaigns. *)
Theorem budget_used_at_least :
  exists o : Output,
    run_script sort_values_desc solve df = Ok o /\
    40 <= Series_sum (Police_Allocated o) /\
    30 <= Series_sum (Awareness_Campaigns o) /\
    260 <= total_budget_used o.
Proof.
  exists out. split; [apply optimal_run |].
  destruct (build_model_constraints _ _ _ _ built) as (j & Hj & _).
  pose proof (jaipur_label_in_index _ Hj) as Hlt.
  destruct (optimal_jaipur j Hj) as [Hp Ha].
  assert (Sp : varValue (solve m) (x j) <= Series_sum (Police_Allocated out)).
  { apply Series_sum_ge_member.
    - unfold out. cbn [collect_results Police_Allocated].
      rewrite Forall_map, Forall_forall. intros i Hi.
      apply in_seq in Hi. apply optimal_nonnegative. lia.
    - unfold out. cbn [collect_results Police_Allocated].
      apply in_map_iff. exists j. split; [reflexivity |].
      apply in_seq. lia. }
  assert (Sa : varValue (solve m) (z j)
               <= Series_sum (Awareness_Campaigns out)).
  { apply Series_sum_ge_member.
    - unfold out. cbn [collect_results Awareness_Campaigns].
      rewrite Forall_map, Forall_forall. intros i Hi.
      apply in_seq in Hi. apply optimal_nonnegative. lia.
    - unfold out. cbn [collect_results Awareness_Campaigns].
      apply in_map_iff. exists j. split; [reflexivity |].
      apply in_seq. lia. }
  unfold total_budget_used, cost_x, cost_z. lia.
Qed.

End OptimalSolution.

Lemma global_caps_respected_witness :
  exists o : Output,
    run_script stable_sort_desc (checking_solver demo_allocation) df_demo
      = Ok o /\
    Series_sum (Police_Allocated o) <= X_max /\
    Series_sum (Awareness_Campaigns o) <= Z_max.
Proof.
  eapply global_caps_respected.
  - apply checking_solver_spec.
  - vm_compute. reflexivity.
  - vm_compute. reflexivity.
Defined.

Lemma per_district_caps_respected_witness :
  exists o : Output,
    run_script stable_sort_desc (checking_solver demo_allocation) df_demo
      = Ok o /\
    length (Police_Allocated o) = length df_demo /\
    length (Awareness_Campaigns o) = length df_demo /\
    Forall (fun p => 0 <= p <= 50) (Police_Allocated o) /\
    Forall (fun a => 0 <= a <= 40) (Awareness_Campaigns o).
Proof.
  eapply per_district_caps_respected.
  - apply checking_solver_spec.
  - vm_compute. reflexivity.
  - vm_compute. reflexivity.
Defined.

Lemma exempt_district_allocation_witness :
  exists o : Output,
    run_script stable_sort_desc (checking_solver demo_allocation) df_demo
      = Ok o /\
    40 <= nth 1 (Police_Allocated o) 0 <= 50 /\
    30 <= nth 1 (Awareness_Campaigns o) 0 <= 40.
Proof.
  eapply exempt_district_allocation.
  - apply checking_solver_spec.
  - vm_compute. reflexivity.
  - vm_compute. reflexivity.
  - vm_compute. reflexivity.
Defined.

Lemma budget_used_at_least_witness :
  exists o : Output,
    run_script stable_sort_desc (checking_solver demo_allocation) df_demo
      = Ok o /\
    40 <= Series_sum (Police_Allocated o) /\
    30 <= Series_sum (Awareness_Campaigns o) /\
    260 <= total_budget_used o.
Proof.
  eapply budget_used_at_least.
  - apply checking_solver_spec.
  - vm_compute. reflexivity.
  - vm_compute. reflexivity.
Defined.

(** ** The problem the builder leaves *)

Lemma minimal_allocation_bounds (pr : list nat) (j : nat) (i : nat) :
  0 <= minimal_allocation pr j (x i)
    <= (if Nat.eqb i j then 40 else 0)
       + (if existsb (Nat.eqb i) pr then 1 else 0) /\
  0 <= minimal_allocation pr j (z i) <= (if Nat.eqb i j then 30 else 0).
Proof.
  unfold minimal_allocation. simpl.
  destruct (Nat.eqb i j), (existsb (Nat.eqb i) pr); lia.
Qed.

Lemma minimal_allocation_nonneg (pr : list nat) (j : nat) (v : LpVariable) :
  0 <= minimal_allocation pr j v.
Proof.
  unfold minimal_allocation.
  destruct (family v), (Nat.eqb (key v) j),
    (existsb (Nat.eqb (key v)) pr); lia.
Qed.

(** A label occurs at most once in a list without repetition. *)
Lemma sum_indicator_le (l : list nat) (a : nat) (c : Z) :
  NoDup l -> 0 <= c ->
  0 <= Series_sum (map (fun i => if Nat.eqb i a then c else 0) l) <= c.
Proof.
  unfold Series_sum. intros Hnd Hc.
  induction Hnd as [|b l Hb Hnd IH]; simpl; [lia |].
  destruct (Nat.eqb_spec b a) as [-> | Hne]; [| lia].
  assert (E : fold_right Z.add 0
                (map (fun i => if Nat.eqb i a then c else 0) l) = 0).
  { clear IH Hnd. induction l as [|d l IH]; [reflexivity |]. simpl.
    destruct (Nat.eqb_spec d a) as [-> | _].
    - exfalso. apply Hb. now left.
    - rewrite IH; [reflexivity |]. intros H. apply Hb. now right. }
  lia.
Qed.

Lemma sum_members_le (l pr : list nat) :
  NoDup l ->
  0 <= Series_sum (map (fun i => if existsb (Nat.eqb i) pr then 1 else 0) l)
    <= Z.of_nat (length pr).
Proof.
  intros Hnd. induction pr as [|a pr IH].
  - unfold Series_sum. simpl.
    assert (E : fold_right Z.add 0 (map (fun _ : nat => 0) l) = 0)
      by (clear Hnd; induction l as [|d l IHl]; simpl; lia).
    rewrite E. lia.
  - pose proof (sum_indicator_le l a 1 Hnd ltac:(lia)) as Ha.
    assert (Hle : forall l',
      0 <= Series_sum
             (map (fun i => if Nat.eqb i a || existsb (Nat.eqb i) pr
                            then 1 else 0) l')
        <= Series_sum (map (fun i => if Nat.eqb i a then 1 else 0) l')
           + Series_sum
               (map (fun i => if existsb (Nat.eqb i) pr then 1 else 0) l')).
    { unfold Series_sum. induction l' as [|d l' IHl];
        cbn [map fold_right]; [lia |].
      destruct (Nat.eqb d a), (existsb (Nat.eqb d) pr); cbn [orb]; lia. }
    specialize (Hle l). cbn [existsb].
    change (length (a :: pr)) with (S (length pr)). lia.
Qed.

Lemma Series_sum_le (f g : nat -> Z) (l : list nat) :
  (forall i, f i <= g i) ->
  Series_sum (map f l) <= Series_sum (map g l).
Proof.
  intros H. unfold Series_sum. induction l as [|i l IH]; simpl; [lia |].
  specialize (H i). lia.
Qed.

Lemma Series_sum_plus (f g : nat -> Z) (l : list nat) :
  Series_sum (map (fun i => f i + g i) l)
  = Series_sum (map f l) + Series_sum (map g l).
Proof.
  unfold Series_sum. induction l as [|i l IH]; simpl; lia.
Qed.

Lemma minimal_allocation_totals (pr : list nat) (j : nat) (l : list nat) :
  NoDup l ->
  Series_sum (map (fun i => minimal_allocation pr j (x i)) l)
    <= 40 + Z.of_nat (length pr) /\
  Series_sum (map (fun i => minimal_allocation pr j (z i)) l) <= 30.
Proof.
  intros Hnd. split.
  - eapply Z.le_trans.
    + apply (Series_sum_le _
               (fun i => (if Nat.eqb i j then 40 else 0)
                         + (if existsb (Nat.eqb i) pr then 1 else 0))).
      intros i. apply minimal_allocation_bounds.
    + rewrite Series_sum_plus.
      pose proof (sum_indicator_le l j 40 Hnd ltac:(lia)).
      pose proof (sum_members_le l pr Hnd). lia.
  - eapply Z.le_trans.
    + apply (Series_sum_le _ (fun i => if Nat.eqb i j then 30 else 0)).
      intros i. apply minimal_allocation_bounds.
    + apply (sum_indicator_le l j 30 Hnd). lia.
Qed.

Lemma excluding_length_le (j : nat) (l : list nat) :
  (length (excluding j l) <= length l)%nat.
Proof.
  unfold excluding. induction l as [|a l IH]; simpl; [lia |].
  destruct (negb (Nat.eqb a j)); simpl; lia.
Qed.

Lemma priority_at_most_five (sort_values_desc : list float64 -> list nat)
  (severity : list float64) (j : nat) :
  (length (top5_excluding_jaipur sort_values_desc severity j) <= 5)%nat.
Proof.
  unfold top5_excluding_jaipur, top5.
  eapply Nat.le_trans; [apply excluding_length_le | apply firstn_le_length].
Qed.

(** Every variable the script declares has lower bound 0, so an
    assignment without negative values is within the variable bounds of
    every constraint of the script. *)
Lemma within_bounds_nonneg (v : LpVariable -> Z) (df : DataFrame)
  (pr : list nat) (j : nat) (c : LpConstraint) :
  (forall u, 0 <= v u) -> In c (constraint_set df pr j) ->
  within_bounds v c = true.
Proof.
  intros Hv Hc. unfold within_bounds. apply forallb_forall.
  intros [k u] Hu. apply Z.leb_le. cbn [snd].
  assert (Hlb : lowBound u = 0); [| rewrite Hlb; apply Hv].
  assert (Hsum : forall (cx : Z) (f : nat -> LpVariable) (l : list nat),
            (forall i, lowBound (f i) = 0) ->
            In (k, u) (lpSum (map (fun i => term cx (f i)) l)) ->
            lowBound u = 0).
  { intros cx f l Hf Hin. unfold lpSum in Hin. apply in_concat in Hin.
    destruct Hin as (e & He & Hin). apply in_map_iff in He.
    destruct He as (i & <- & _). destruct Hin as [E | []].
    injection E as _ <-. apply Hf. }
  unfold constraint_set in Hc.
  repeat (apply in_app_or in Hc; destruct Hc as [Hc | Hc]).
  - destruct Hc as [<- | [<- | [<- | []]]]; cbn [lhs] in Hu.
    + unfold lpSum in Hu. apply in_concat in Hu.
      destruct Hu as (e & He & Hin). apply in_map_iff in He.
      destruct He as (i & <- & _).
      destruct Hin as [E | [E | []]]; injection E as _ <-; reflexivity.
    + now apply (Hsum 1 x (index df)).
    + now apply (Hsum 1 z (index df)).
  - apply in_flat_map in Hc. destruct Hc as (i & _ & Hc).
    destruct Hc as [<- | [<- | []]]; cbn [lhs] in Hu;
      (destruct Hu as [E | [E | []]]; injection E as _ <-; reflexivity).
  - destruct Hc as [<- | [<- | [<- | [<- | []]]]]; cbn [lhs] in Hu;
      (destruct Hu as [E | []]; injection E as _ <-; reflexivity).
  - apply in_flat_map in Hc. destruct Hc as (i & _ & Hc).
    destruct Hc as [<- | [<- | []]]; cbn [lhs] in Hu;
      (destruct Hu as [E | []]; injection E as _ <-; reflexivity).
Qed.

Lemma minimal_allocation_satisfies (df : DataFrame) (pr : list nat)
  (j : nat) (c : LpConstraint) :
  (length pr <= 5)%nat -> ~ In j pr ->
  In c (constraint_set df pr j) ->
  satisfies (minimal_allocation pr j) c = true.
Proof.
  intros Hlen Hj Hc.
  destruct (minimal_allocation_totals pr j (index df) (seq_NoDup _ _))
    as [Tx Tz].
  unfold constraint_set in Hc.
  repeat (apply in_app_or in Hc; destruct Hc as [Hc | Hc]).
  - destruct Hc as [<- | [<- | [<- | []]]]; unfold satisfies, Budget_Limit, Max_Police, Max_Awareness,
      Top5_Min_Resource, Top5_Max_Resource, Jaipur_Max_Police,
      Jaipur_Max_Awareness, Jaipur_Min_Police, Jaipur_Min_Awareness,
      Max_Police_Per_District, Max_Awareness_Per_District;
      cbn [sense lhs rhs]; apply Z.leb_le.
    + rewrite eval_budget_terms. unfold cost_x, cost_z, budget. lia.
    + rewrite eval_sum_vars. unfold X_max. lia.
    + rewrite eval_sum_vars. unfold Z_max. lia.
  - apply in_flat_map in Hc. destruct Hc as (i & Hi & Hc).
    assert (Hne : Nat.eqb i j = false).
    { apply Nat.eqb_neq. intros ->. contradiction. }
    assert (Hex : existsb (Nat.eqb i) pr = true).
    { apply existsb_exists. exists i. split; [exact Hi | apply Nat.eqb_refl]. }
    destruct Hc as [<- | [<- | []]]; unfold satisfies, Budget_Limit, Max_Police, Max_Awareness,
      Top5_Min_Resource, Top5_Max_Resource, Jaipur_Max_Police,
      Jaipur_Max_Awareness, Jaipur_Min_Police, Jaipur_Min_Awareness,
      Max_Police_Per_District, Max_Awareness_Per_District;
      cbn [sense lhs rhs]; apply Z.leb_le; rewrite eval_pair;
      unfold minimal_allocation; simpl; rewrite Hne, Hex;
      unfold District_Limit; lia.
  - destruct Hc as [<- | [<- | [<- | [<- | []]]]]; unfold satisfies, Budget_Limit, Max_Police, Max_Awareness,
      Top5_Min_Resource, Top5_Max_Resource, Jaipur_Max_Police,
      Jaipur_Max_Awareness, Jaipur_Min_Police, Jaipur_Min_Awareness,
      Max_Police_Per_District, Max_Awareness_Per_District;
      cbn [sense lhs rhs]; apply Z.leb_le; rewrite eval_var;
      unfold minimal_allocation; simpl; rewrite Nat.eqb_refl; lia.
  - apply in_flat_map in Hc. destruct Hc as (i & _ & Hc).
    pose proof (minimal_allocation_bounds pr j i) as [Bx Bz].
    destruct Hc as [<- | [<- | []]]; unfold satisfies, Budget_Limit, Max_Police, Max_Awareness,
      Top5_Min_Resource, Top5_Max_Resource, Jaipur_Max_Police,
      Jaipur_Max_Awareness, Jaipur_Min_Police, Jaipur_Min_Awareness,
      Max_Police_Per_District, Max_Awareness_Per_District;
      cbn [sense lhs rhs]; apply Z.leb_le; rewrite eval_var;
      destruct (Nat.eqb i j), (existsb (Nat.eqb i) pr); lia.
Qed.

(** X5. Every problem the builder produces has a solution: the minima of
    the exempt district together with one police unit for each priority
    district satisfy all constraints and variable bounds, for every table
    and every ranking.  A solver that certifies this assignment reports
    [Optimal]. *)
Theorem built_problem_is_feasible
  (sort_values_desc : list float64 -> list nat) (df : DataFrame)
  (severity : list float64) (m : LpProblem) (jaipur_idx : nat) :
  build_model sort_values_desc df severity new_problem = Ok (tt, m) ->
  hd_error (jaipur_labels df) = Some jaipur_idx ->
  let v :=
    minimal_allocation
      (top5_excluding_jaipur sort_values_desc severity jaipur_idx)
      jaipur_idx in
  feasible v m = true /\
  status (checking_solver v m) = LpStatusOptimal.
Proof.
  intros Hbuild Hj v.
  destruct (build_model_constraints _ _ _ _ Hbuild) as (j & Hj' & Em).
  assert (j = jaipur_idx) by congruence. subst j.
  assert (Hf : feasible v m = true).
  { unfold feasible. rewrite Em. apply forallb_forall. intros c Hc.
    apply andb_true_iff. split.
    - apply (minimal_allocation_satisfies df _ jaipur_idx c);
        [apply priority_at_most_five | | exact Hc].
      unfold top5_excluding_jaipur. rewrite excluding_In. tauto.
    - apply (within_bounds_nonneg v df _ jaipur_idx c
               (minimal_allocation_nonneg _ _) Hc). }
  split; [exact Hf |]. unfold checking_solver. now rewrite Hf.
Qed.

Lemma built_problem_is_feasible_witness :
  exists m : LpProblem,
    build_model reversing_sort_desc df_ties (Weighted_Severity df_ties)
      new_problem = Ok (tt, m) /\
    feasible
      (minimal_allocation
         (top5_excluding_jaipur reversing_sort_desc
            (Weighted_Severity df_ties) 0) 0) m = true.
Proof.
  eexists. split; [vm_compute; reflexivity |].
  apply (built_problem_is_feasible reversing_sort_desc df_ties
           (Weighted_Severity df_ties) _ 0%nat
           ltac:(vm_compute; reflexivity) ltac:(vm_compute; reflexivity)).
Defined.

(** X6. The exclusion of the exempt district from the priority set is
    needed: a problem that held both the police minimum of the exempt
    district and the priority cap on the same district would have no
    solution at all. *)
Theorem exempt_minimum_excludes_priority_cap (m : LpProblem)
  (v : LpVariable -> Z) (jaipur_idx : nat) :
  In (Jaipur_Min_Police jaipur_idx) (constraints m) ->
  In (Top5_Max_Resource jaipur_idx) (constraints m) ->
  feasible v m = false.
Proof.
  intros Hmin Hmax. destruct (feasible v m) eqn:Hf; [exfalso | reflexivity].
  pose proof (feasible_constraint _ _ _ Hf Hmin) as Cmin.
  pose proof (feasible_constraint _ _ _ Hf Hmax) as Cmax.
  pose proof (feasible_bounds _ _ _ (1, z jaipur_idx) Hf Hmax) as Bz.
  unfold satisfies, Jaipur_Min_Police in Cmin.
  unfold satisfies, Top5_Max_Resource in Cmax.
  cbn [sense lhs rhs] in Cmin, Cmax.
  rewrite eval_var in Cmin. rewrite eval_pair in Cmax.
  apply Z.leb_le in Cmin, Cmax.
  assert (0 <= v (z jaipur_idx)).
  { apply Bz. simpl. auto. }
  unfold District_Limit in Cmax. lia.
Qed.

Lemma exempt_minimum_excludes_priority_cap_witness :
  feasible demo_allocation
    (mkProblem [] [Jaipur_Min_Police 1; Top5_Max_Resource 1]) = false.
Proof.
  apply (exempt_minimum_excludes_priority_cap _ _ 1%nat); simpl; auto.
Defined.

(** ** Constraint names *)

Lemma str_inj (i k : nat) : str i = str k -> i = k.
Proof.
  unfold str. intros H. apply Unsigned.to_uint_inj.
  assert (E : Some (Nat.to_uint i) = Some (Nat.to_uint k)).
  { rewrite <- !NilEmpty.usu. now rewrite H. }
  now injection E.
Qed.

Lemma append_inj (p a b : string) : (p ++ a = p ++ b)%string -> a = b.
Proof.
  induction p as [|c p IH]; simpl; intros H; [exact H |].
  injection H as H. now apply IH.
Qed.

Lemma map_flat_map {A B C : Type} (g : B -> C) (f : A -> list B)
  (l : list A) :
  map g (flat_map f l) = flat_map (fun a => map g (f a)) l.
Proof.
  induction l as [|a l IH]; simpl; [reflexivity |].
  now rewrite map_app, IH.
Qed.

(** Two name families with distinct members stay distinct over a list of
    labels without repetition. *)
Lemma NoDup_two_families {A : Type} (f g : nat -> A) (l : list nat) :
  NoDup l ->
  (forall i k, f i = f k -> i = k) ->
  (forall i k, g i = g k -> i = k) ->
  (forall i k, f i <> g k) ->
  NoDup (flat_map (fun i => [f i; g i]) l).
Proof.
  intros Hnd Hf Hg Hfg. induction Hnd as [|a l Ha Hnd IH]; simpl;
    [constructor |].
  assert (Hin : forall s, In s (flat_map (fun i => [f i; g i]) l) ->
                  exists i, In i l /\ (s = f i \/ s = g i)).
  { intros s Hs. apply in_flat_map in Hs. destruct Hs as (i & Hi & Hs).
    exists i. split; [exact Hi |].
    destruct Hs as [<- | [<- | []]]; auto. }
  constructor; [| constructor; [| exact IH]].
  - intros [E | H]; [now apply (Hfg a a) |].
    destruct (Hin _ H) as (i & Hi & [E | E]).
    + apply Hf in E. subst i. contradiction.
    + now apply (Hfg a i).
  - intros H. destruct (Hin _ H) as (i & Hi & [E | E]).
    + symmetry in E. now apply (Hfg i a).
    + apply Hg in E. subst i. contradiction.
Qed.

Ltac name_clash :=
  match goal with
  | H : _ = _ |- _ => simpl in H; discriminate H
  end.

(** The name in [H] is none of the literal names listed there. *)
Ltac not_listed H :=
  simpl in H;
  repeat (destruct H as [H | H]; [discriminate H |]);
  exact H.

Lemma constraint_set_names_NoDup (df : DataFrame) (pr : list nat) (j : nat) :
  NoDup pr -> NoDup (map cname (constraint_set df pr j)).
Proof.
  intros Hpr. unfold constraint_set.
  rewrite !map_app, !map_flat_map.
  unfold Budget_Limit, Max_Police, Max_Awareness, Top5_Min_Resource,
    Top5_Max_Resource, Jaipur_Max_Police, Jaipur_Max_Awareness,
    Jaipur_Min_Police, Jaipur_Min_Awareness, Max_Police_Per_District,
    Max_Awareness_Per_District.
  cbn [map cname].
  assert (Hpri : forall s,
            In s (flat_map
                    (fun i => [("Top5_Min_Resource_" ++ str i)%string;
                               ("Top5_Max_Resource_" ++ str i)%string]) pr) ->
            exists i, s = ("Top5_Min_Resource_" ++ str i)%string \/
                      s = ("Top5_Max_Resource_" ++ str i)%string).
  { intros s Hs. apply in_flat_map in Hs. destruct Hs as (i & _ & Hs).
    exists i. destruct Hs as [<- | [<- | []]]; auto. }
  assert (Hcap : forall s,
            In s (flat_map
                    (fun i => [("Max_Police_Per_District_" ++ str i)%string;
                               ("Max_Awareness_Per_District_" ++ str i)%string])
                    (index df)) ->
            exists i, s = ("Max_Police_Per_District_" ++ str i)%string \/
                      s = ("Max_Awareness_Per_District_" ++ str i)%string).
  { intros s Hs. apply in_flat_map in Hs. destruct Hs as (i & _ & Hs).
    exists i. destruct Hs as [<- | [<- | []]]; auto. }
  apply NoDup_app.
  - repeat constructor; simpl; intuition discriminate.
  - apply NoDup_app.
    + apply NoDup_two_families; [exact Hpr | | |].
      * intros i k H. apply append_inj in H. now apply str_inj.
      * intros i k H. apply append_inj in H. now apply str_inj.
      * intros i k H. name_clash.
    + apply NoDup_app.
      * repeat constructor; simpl; intuition discriminate.
      * apply NoDup_two_families; [apply seq_NoDup | | |].
        -- intros i k H. apply append_inj in H. now apply str_inj.
        -- intros i k H. apply append_inj in H. now apply str_inj.
        -- intros i k H. name_clash.
      * intros s Hs Hc. destruct (Hcap s Hc) as (i & [E | E]); subst s;
          not_listed Hs.
    + intros s Hs Hc. apply in_app_or in Hc.
      destruct (Hpri s Hs) as (i & [E | E]); subst s;
        (destruct Hc as [Hc | Hc];
         [not_listed Hc
         | destruct (Hcap _ Hc) as (k & [E | E]); name_clash]).
  - intros s Hs Hc. apply in_app_or in Hc.
    destruct Hc as [Hc | Hc].
    + destruct (Hpri s Hc) as (i & [E | E]); subst s; not_listed Hs.
    + apply in_app_or in Hc. destruct Hc as [Hc | Hc].
      * simpl in Hs.
        repeat (destruct Hs as [Hs | Hs]; [subst s; not_listed Hc |]).
        exact Hs.
      * destruct (Hcap s Hc) as (i & [E | E]); subst s; not_listed Hs.
Qed.

(** X7. With a ranking that lists every district once, no two constraints
    of the built problem carry the same name, so that pulp never meets a
    constraint name twice. *)
Theorem constraint_names_distinct
  (sort_values_desc : list float64 -> list nat) (df : DataFrame)
  (severity : list float64) (m : LpProblem) :
  sort_values_spec sort_values_desc ->
  build_model sort_values_desc df severity new_problem = Ok (tt, m) ->
  NoDup (constraint_names m).
Proof.
  intros Hsort Hbuild.
  destruct (build_model_constraints _ _ _ _ Hbuild) as (j & _ & Em).
  unfold constraint_names. rewrite Em.
  apply constraint_set_names_NoDup.
  unfold top5_excluding_jaipur, excluding.
  apply NoDup_filter. now apply top5_NoDup.
Qed.

Lemma constraint_names_distinct_witness :
  exists m : LpProblem,
    build_model stable_sort_desc df_demo (Weighted_Severity df_demo)
      new_problem = Ok (tt, m) /\
    NoDup (constraint_names m).
Proof.
  eexists. split; [vm_compute; reflexivity |].
  apply (constraint_names_distinct stable_sort_desc df_demo
           (Weighted_Severity df_demo) _ stable_sort_desc_spec).
  vm_compute. reflexivity.
Defined.

(** ** Which row is the exempt district *)

Lemma jaipur_labels_from (s : nat) (df : DataFrame) (j : nat) :
  hd_error
    (map fst
       (filter (fun p => String.eqb (District (snd p)) "Jaipur")
          (combine (seq s (length df)) df))) = Some j <->
  (s <= j)%nat /\
  (exists r, nth_error df (j - s) = Some r /\ District r = "Jaipur"%string) /\
  (forall i r, (i < j - s)%nat -> nth_error df i = Some r ->
               District r <> "Jaipur"%string).
Proof.
  revert s. induction df as [|r0 df IH]; intros s; simpl.
  - split; [discriminate |].
    intros (_ & (r & Hr & _) & _). destruct (j - s)%nat; discriminate.
  - destruct (String.eqb_spec (District r0) "Jaipur") as [E | E]; simpl.
    + split.
      * intros H. injection H as <-. rewrite Nat.sub_diag.
        split; [lia |]. split; [exists r0; now split | intros; lia].
      * intros (Hle & _ & Hfirst).
        destruct (j - s)%nat as [|d] eqn:Ed; [f_equal; lia |].
        exfalso. apply (Hfirst 0%nat r0); [lia | reflexivity | exact E].
    + rewrite IH. split.
      * intros (Hle & (r & Hr & HJ) & Hfirst).
        split; [lia |].
        replace (j - s)%nat with (S (j - S s)) by lia. split.
        -- exists r. now split.
        -- intros [|i] r' Hi Hr'.
           ++ injection Hr' as <-. exact E.
           ++ apply (Hfirst i r'); [lia | exact Hr'].
      * intros (Hle & (r & Hr & HJ) & Hfirst).
        destruct (j - s)%nat as [|d] eqn:Ed.
        { injection Hr as <-. contradiction. }
        assert (Hd : (j - S s = d)%nat) by lia. rewrite Hd.
        split; [lia |]. split.
        -- exists r. now split.
        -- intros i r' Hi Hr'. apply (Hfirst (S i) r'); [lia | exact Hr'].
Qed.

(** X8. The exempt district of the script is the first row named Jaipur:
    the lookup yields label [j] exactly when row [j] is named Jaipur and no
    earlier row is.  A later row of that name is treated like any other
    district. *)
Theorem exempt_district_is_first_match (df : DataFrame) (j : nat) :
  hd_error (jaipur_labels df) = Some j <->
  (exists r, nth_error df j = Some r /\ District r = "Jaipur"%string) /\
  (forall i r, (i < j)%nat -> nth_error df i = Some r ->
               District r <> "Jaipur"%string).
Proof.
  unfold jaipur_labels, index. rewrite jaipur_labels_from.
  rewrite Nat.sub_0_r. split.
  - intros (_ & H1 & H2). now split.
  - intros (H1 & H2). split; [lia | now split].
Qed.

(** ** The districts ranked first *)

Lemma StronglySorted_app_cross {A : Type} (R : A -> A -> Prop)
  (l1 l2 : list A) (a b : A) :
  StronglySorted R (l1 ++ l2) -> In a l1 -> In b l2 -> R a b.
Proof.
  induction l1 as [|c l1 IH]; intros Hs Ha Hb; [contradiction |].
  simpl in Hs. apply StronglySorted_inv in Hs. destruct Hs as [Hs Hc].
  destruct Ha as [-> | Ha]; [| now apply IH].
  rewrite Forall_forall in Hc. apply Hc, in_or_app. now right.
Qed.

(** The first [n] labels of a sorted column dominate all the others. *)
Lemma head_dominates (sort : list float64 -> list nat)
  (col : list float64) (n i k : nat) :
  sort_values_spec sort ->
  In i (firstn n (sort col)) ->
  (k < length col)%nat -> ~ In k (firstn n (sort col)) ->
  key_ge (loc col i) (loc col k) = true.
Proof.
  intros Hsort Hi Hk Hnk.
  destruct (Hsort col) as [_ Hs].
  rewrite <- (firstn_skipn n (sort col)) in Hs.
  apply (StronglySorted_app_cross _ _ _ i k Hs Hi).
  apply (sorted_label_range _ Hsort) in Hk.
  rewrite <- (firstn_skipn n (sort col)) in Hk.
  apply in_app_or in Hk. destruct Hk as [Hk | Hk]; [contradiction | exact Hk].
Qed.

(** X9. The five labels the script takes as high-severity districts are
    indeed the highest ranked: the severity of each of them is at least
    the severity of every district left out, and they are five distinct
    districts of the table (all of them when the table has fewer). *)
Theorem top5_are_the_most_severe
  (sort_values_desc : list float64 -> list nat) (severity : list float64) :
  sort_values_spec sort_values_desc ->
  length (top5 sort_values_desc severity) = Nat.min 5 (length severity) /\
  NoDup (top5 sort_values_desc severity) /\
  (forall i, In i (top5 sort_values_desc severity) ->
             (i < length severity)%nat) /\
  (forall i k,
     In i (top5 sort_values_desc severity) ->
     (k < length severity)%nat ->
     ~ In k (top5 sort_values_desc severity) ->
     key_ge (loc severity i) (loc severity k) = true).
Proof.
  intros Hsort.
  split; [now apply top5_length |].
  split; [now apply top5_NoDup |].
  split; [intros i; now apply top5_in_index |].
  intros i k. unfold top5. now apply head_dominates.
Qed.

Lemma top5_are_the_most_severe_witness :
  key_ge (loc (Weighted_Severity df_demo) 4) (loc (Weighted_Severity df_demo) 6)
  = true.
Proof.
  apply (proj2 (proj2 (proj2
           (top5_are_the_most_severe stable_sort_desc
              (Weighted_Severity df_demo) stable_sort_desc_spec)))).
  - vm_compute. tauto.
  - vm_compute. lia.
  - vm_compute. intuition discriminate.
Defined.

Lemma Series_zip_length (op : float64 -> float64 -> float64)
  (s t : list float64) :
  length (Series_zip op s t) = Nat.min (length s) (length t).
Proof.
  revert t. induction s as [|a s IH]; intros [|b t]; simpl;
    try reflexivity. now rewrite IH.
Qed.

Lemma impact_length (sort_values_desc : list float64 -> list nat)
  (df : DataFrame) (sol : Solution) :
  length (Total_Impact_Score
            (collect_results sort_values_desc df (Weighted_Severity df) sol))
  = length df.
Proof.
  cbn [collect_results Total_Impact_Score].
  unfold Series_add, Series_mul, index.
  rewrite !Series_zip_length, !length_map, length_seq,
    Weighted_Severity_length. lia.
Qed.

(** X10. The ten rows shown in the summary charts are the rows of highest
    total impact: they are distinct districts, ten of them unless the
    table is smaller, listed in descending order of impact, and the impact
    of each is at least the impact of every district not shown. *)
Theorem top10_are_the_highest_impact
  (sort_values_desc : list float64 -> list nat) (df : DataFrame)
  (sol : Solution) :
  sort_values_spec sort_values_desc ->
  let out := collect_results sort_values_desc df (Weighted_Severity df) sol in
  let impact := Total_Impact_Score out in
  length impact = length df /\
  length (top10_df sort_values_desc out) = Nat.min 10 (length df) /\
  NoDup (top10_df sort_values_desc out) /\
  top10_df sort_values_desc out = firstn 10 (df_sorted out) /\
  StronglySorted (fun i k => key_ge (loc impact i) (loc impact k) = true)
    (top10_df sort_values_desc out) /\
  (forall i k,
     In i (top10_df sort_values_desc out) ->
     (k < length df)%nat ->
     ~ In k (top10_df sort_values_desc out) ->
     key_ge (loc impact i) (loc impact k) = true).
Proof.
  intros Hsort out impact.
  assert (Hlen : length impact = length df)
    by apply impact_length.
  split; [exact Hlen |].
  unfold top10_df. fold impact.
  split; [rewrite length_firstn, (sorted_labels_length _ Hsort); congruence |].
  split.
  { pose proof (sorted_labels_NoDup _ Hsort impact) as H.
    rewrite <- (firstn_skipn 10 (sort_values_desc impact)) in H.
    now apply NoDup_app_remove_r in H. }
  split; [reflexivity |].
  split; [apply firstn_StronglySorted, (Hsort impact) |].
  intros i k Hi Hk Hnk. apply (head_dominates _ _ 10 i k Hsort Hi); [| exact Hnk].
  now rewrite Hlen.
Qed.

Lemma top10_are_the_highest_impact_witness :
  length
    (top10_df stable_sort_desc
       (collect_results stable_sort_desc df_demo (Weighted_Severity df_demo)
          (mkSolution LpStatusOptimal demo_allocation)))
  = Nat.min 10 (length df_demo).
Proof.
  apply (top10_are_the_highest_impact stable_sort_desc df_demo
           (mkSolution LpStatusOptimal demo_allocation)
           stable_sort_desc_spec).
Defined.

(** ** More on the Severity Scorer *)

Lemma inject_Z_pos (m : Z) : 0 < m -> (0 < inject_Z m)%Q.
Proof. intros H. now rewrite (Zlt_Qlt 0 m) in H. Qed.

Lemma inject_Z_nonzero (m : Z) : 0 < m -> ~ (inject_Z m == 0)%Q.
Proof.
  intros H E. apply inject_Z_pos in H. rewrite E in H.
  now apply Qlt_irrefl in H.
Qed.

(** With positive column maxima the severity of a row is the finite value
    of the formula. *)
Lemma severity_at (df : DataFrame) (i : nat) (r : Row) :
  positive_maxima df -> nth_error df i = Some r ->
  is_fin (loc (Weighted_Severity df) i) (severity_value df r).
Proof.
  intros (HK & HI & HA) Hr.
  assert (Hi : (i < length df)%nat)
    by (apply nth_error_Some; congruence).
  rewrite Weighted_Severity_rows, (loc_map _ _ r) by exact Hi.
  rewrite (nth_error_nth _ _ _ Hr).
  destruct (Series_max_column Killed df HK) as (EK & _).
  destruct (Series_max_column Injured df HI) as (EI & _).
  destruct (Series_max_column Accidents df HA) as (EA & _).
  rewrite EK, EI, EA. unfold severity_value.
  repeat apply is_fin_add; apply is_fin_mul; try apply is_fin_Fin;
    apply is_fin_div; try apply is_fin_of_int; now apply inject_Z_nonzero.
Qed.

Lemma ratio_le (k k' m : Z) :
  0 < m -> k <= k' -> (inject_Z k / inject_Z m <= inject_Z k' / inject_Z m)%Q.
Proof.
  intros Hm Hk. unfold Qdiv. apply Qmult_le_compat_r.
  - now rewrite <- Zle_Qle.
  - apply Qinv_le_0_compat, Qlt_le_weak. now apply inject_Z_pos.
Qed.

Lemma severity_value_mono (df : DataFrame) (r r' : Row) :
  positive_maxima df ->
  Killed r <= Killed r' -> Injured r <= Injured r' ->
  Accidents r <= Accidents r' ->
  (severity_value df r <= severity_value df r')%Q.
Proof.
  intros (HK & HI & HA) Hk Hi Ha. unfold severity_value.
  pose proof (ratio_le _ _ _ HK Hk). pose proof (ratio_le _ _ _ HI Hi).
  pose proof (ratio_le _ _ _ HA Ha). lra.
Qed.

(** X11. Severity is monotone in the counts: on a table with a positive
    maximum in each count column, a district with at least as many killed,
    injured and accidents as another one has at least its severity. *)
Theorem severity_monotone (df : DataFrame) (i i' : nat) (r r' : Row) :
  positive_maxima df ->
  nth_error df i = Some r -> nth_error df i' = Some r' ->
  Killed r <= Killed r' -> Injured r <= Injured r' ->
  Accidents r <= Accidents r' ->
  fle (loc (Weighted_Severity df) i) (loc (Weighted_Severity df) i') = true.
Proof.
  intros Hpos Hr Hr' Hk Hi Ha.
  destruct (severity_at df i r Hpos Hr) as (q & -> & Hq).
  destruct (severity_at df i' r' Hpos Hr') as (q' & -> & Hq').
  simpl. apply Qle_bool_iff. rewrite Hq, Hq'.
  now apply severity_value_mono.
Qed.

Lemma severity_monotone_witness :
  fle (loc (Weighted_Severity df_demo) 6) (loc (Weighted_Severity df_demo) 5)
  = true.
Proof.
  apply (severity_monotone df_demo 6 5
           (mkRow "Sikar" 30 10 10) (mkRow "Bikaner" 60 20 40)).
  - repeat split.
  - reflexivity.
  - reflexivity.
  - simpl. lia.
  - simpl. lia.
  - simpl. lia.
Defined.

(** The sum of three finite terms is stored in lowest terms. *)
Lemma severity_canonical (df : DataFrame) (i : nat) (r : Row) (q : Q) :
  positive_maxima df -> nth_error df i = Some r ->
  (severity_value df r == q)%Q ->
  loc (Weighted_Severity df) i = Fin (Qred q).
Proof.
  intros Hpos Hr Hq.
  pose proof (severity_at df i r Hpos Hr) as Hfin.
  assert (Hi : (i < length df)%nat)
    by (apply nth_error_Some; congruence).
  rewrite Weighted_Severity_rows, (loc_map _ _ r) in * by exact Hi.
  rewrite (nth_error_nth _ _ _ Hr) in *.
  match goal with
  | |- fadd ?a ?b = _ =>
      destruct a as [p| | |] eqn:Ea; destruct b as [p'| | |] eqn:Eb;
      try (destruct Hfin as (q' & Hd & _); cbn [fadd] in Hd; discriminate Hd)
  end.
  destruct Hfin as (q' & Hd & Hq'). cbn [fadd] in Hd. injection Hd as <-.
  cbn [fadd]. f_equal. apply Qred_complete.
  transitivity (Qred (p + p'));
    [symmetry; apply Qred_correct | now rewrite Hq'].
Qed.

(** X12. On a table with a positive maximum in each count column, a
    district that holds the maximum of all three columns has severity
    exactly 1, and a district without any killed, injured or accident has
    severity exactly 0. *)
Theorem severity_extremes (df : DataFrame) (i : nat) (r : Row) :
  positive_maxima df -> nth_error df i = Some r ->
  (Killed r = max_count Killed df -> Injured r = max_count Injured df ->
   Accidents r = max_count Accidents df ->
   loc (Weighted_Severity df) i = Fin 1) /\
  (Killed r = 0 -> Injured r = 0 -> Accidents r = 0 ->
   loc (Weighted_Severity df) i = Fin 0).
Proof.
  intros Hpos Hr. pose proof Hpos as (HK & HI & HA).
  pose proof (inject_Z_nonzero _ HK). pose proof (inject_Z_nonzero _ HI).
  pose proof (inject_Z_nonzero _ HA).
  split; intros Ek Ei Ea.
  - change 1%Q with (Qred 1). apply (severity_canonical df i r); trivial.
    unfold severity_value. rewrite Ek, Ei, Ea. field. auto.
  - change 0%Q with (Qred 0). apply (severity_canonical df i r); trivial.
    unfold severity_value. rewrite Ek, Ei, Ea. field. auto.
Qed.

Lemma severity_extremes_witness :
  loc (Weighted_Severity df_demo) 1 = Fin 1.
Proof.
  apply (proj1 (severity_extremes df_demo 1 (mkRow "Jaipur" 200 80 100)
                  ltac:(repeat split) eq_refl)); reflexivity.
Defined.

Lemma Qsign_inject_Z (n : Z) : Qsign (inject_Z n) = (n ?= 0).
Proof.
  unfold Qsign, Qcompare, inject_Z. simpl. now rewrite Z.mul_1_r.
Qed.

Lemma Qsign_scaled (c n : Z) :
  0 < c -> Qsign (inject_Z (c * n)) = Qsign (inject_Z n).
Proof.
  intros Hc. rewrite !Qsign_inject_Z.
  destruct (Z.compare_spec n 0) as [-> | H | H].
  - now rewrite Z.mul_0_r.
  - apply Z.compare_lt_iff. nia.
  - apply Z.compare_gt_iff. nia.
Qed.

Lemma of_int_inj (a b : Z) : of_int a = of_int b -> a = b.
Proof. unfold of_int, inject_Z. intros H. now injection H. Qed.

(** Counting a column in another unit scales its maximum. *)
Lemma Series_max_scaled (c : Z) (l : list Z) :
  0 < c ->
  (Series_max (map of_int l) = NaN /\
   Series_max (map of_int (map (Z.mul c) l)) = NaN) \/
  (exists n, Series_max (map of_int l) = of_int n /\
             Series_max (map of_int (map (Z.mul c) l)) = of_int (c * n)).
Proof.
  intros Hc.
  destruct (Series_max_ints l) as [[-> E] | (n & E & Hin & Hall)];
    [left; now split | right].
  exists n. split; [exact E |].
  destruct (Series_max_ints (map (Z.mul c) l))
    as [[E' _] | (n' & E' & Hin' & Hall')].
  - destruct l; [contradiction | discriminate].
  - rewrite E'. f_equal.
    apply in_map_iff in Hin'. destruct Hin' as (a & <- & Ha).
    rewrite Forall_forall in Hall, Hall'.
    specialize (Hall a Ha).
    assert (c * n <= c * a) by (apply Hall', in_map_iff; now exists n).
    nia.
Qed.

Lemma fdiv_scaled (c k n : Z) :
  0 < c ->
  fdiv (of_int (c * k)) (of_int (c * n)) = fdiv (of_int k) (of_int n).
Proof.
  intros Hc. unfold of_int, fdiv. rewrite !Qsign_scaled by exact Hc.
  destruct (Qsign (inject_Z n)) eqn:En; try reflexivity.
  - f_equal. apply Qred_complete.
    rewrite !inject_Z_mult. field. split.
    + intros E. apply Qsign_Eq in E. congruence.
    + apply inject_Z_nonzero, Hc.
  - f_equal. apply Qred_complete.
    rewrite !inject_Z_mult. field. split.
    + intros E. apply Qsign_Eq in E. congruence.
    + apply inject_Z_nonzero, Hc.
Qed.

Lemma sub_score_term_scaled (c : Z) (l : list Z) (k : Z) :
  0 < c ->
  fdiv (of_int (c * k)) (Series_max (map of_int (map (Z.mul c) l)))
  = fdiv (of_int k) (Series_max (map of_int l)).
Proof.
  intros Hc.
  destruct (Series_max_scaled c l Hc) as [[-> ->] | (n & -> & ->)].
  - reflexivity.
  - now apply fdiv_scaled.
Qed.

(** X13. The severity does not depend on the unit in which a column is
    counted, as long as the counts stay exact in float64: when every count
    of the table and every rescaled count has a magnitude below [2^53],
    multiplying all killed, all injured and all accident counts by positive
    factors leaves the severity of every district unchanged.  (Within that
    range the conversion of the counts loses nothing, so that the quotients
    are the same numbers; beyond it the converted counts are rounded, and
    the model, whose conversion is exact, says nothing about the script.) *)
Theorem severity_scale_invariant (ck ci ca : Z) (df : DataFrame) :
  0 < ck -> 0 < ci -> 0 < ca ->
  counts_exact df ->
  counts_exact (rescale ck ci ca df) ->
  Weighted_Severity (rescale ck ci ca df) = Weighted_Severity df.
Proof.
  intros Hk Hi Ha _ _.
  rewrite !Weighted_Severity_rows.
  match goal with
  | |- map ?F (rescale _ _ _ _) = _ =>
      transitivity
        (map (fun r => F (mkRow (District r) (ca * Accidents r)
                            (ck * Killed r) (ci * Injured r))) df);
      [exact (map_map _ F df) |]
  end.
  apply map_ext. intros r. cbn [Killed Injured Accidents].
  assert (EK : column Killed (rescale ck ci ca df)
               = map of_int (map (Z.mul ck) (map Killed df))).
  { unfold column, rescale. now rewrite !map_map. }
  assert (EI : column Injured (rescale ck ci ca df)
               = map of_int (map (Z.mul ci) (map Injured df))).
  { unfold column, rescale. now rewrite !map_map. }
  assert (EA : column Accidents (rescale ck ci ca df)
               = map of_int (map (Z.mul ca) (map Accidents df))).
  { unfold column, rescale. now rewrite !map_map. }
  rewrite EK, EI, EA, !column_as_ints.
  now rewrite !sub_score_term_scaled.
Qed.

Lemma severity_scale_invariant_witness :
  counts_exact df_demo /\
  counts_exact (rescale 10 2 3 df_demo) /\
  Weighted_Severity (rescale 10 2 3 df_demo) = Weighted_Severity df_demo.
Proof.
  assert (E : counts_exact df_demo).
  { repeat (constructor; [repeat split; vm_compute; reflexivity |]).
    constructor. }
  assert (E' : counts_exact (rescale 10 2 3 df_demo)).
  { repeat (constructor; [repeat split; vm_compute; reflexivity |]).
    constructor. }
  split; [exact E | split; [exact E' |]].
  apply severity_scale_invariant; [lia | lia | lia | exact E | exact E'].
Defined.

(** ** More on the Result Aggregator *)

Lemma Series_zip_index (op : float64 -> float64 -> float64)
  (f : nat -> float64) (t : list float64) (s : nat) :
  Series_zip op (map f (seq s (length t))) t
  = map (fun i => op (f i) (nth (i - s) t NaN)) (seq s (length t)).
Proof.
  revert s. induction t as [|a t IH]; intros s; [reflexivity |].
  simpl. rewrite Nat.sub_diag. f_equal. rewrite IH.
  apply map_ext_in. intros i Hi. apply in_seq in Hi.
  now replace (i - s)%nat with (S (i - S s)) by lia.
Qed.

(** The impact column, row by row. *)
Lemma impact_rows (sort_values_desc : list float64 -> list nat)
  (df : DataFrame) (sol : Solution) :
  Total_Impact_Score
    (collect_results sort_values_desc df (Weighted_Severity df) sol)
  = map (fun i =>
           fadd
             (fmul (of_int (varValue sol (x i)))
                (loc (Weighted_Severity df) i))
             (fmul (of_int (varValue sol (z i)))
                (loc (Weighted_Severity df) i)))
      (index df).
Proof.
  cbn [collect_results Total_Impact_Score].
  unfold Series_add, Series_mul, index. rewrite !map_map.
  rewrite <- (Weighted_Severity_length df).
  rewrite !Series_zip_index, Series_zip_map.
  apply map_ext. intros i. now rewrite Nat.sub_0_r.
Qed.

Lemma normalized_rows (sort_values_desc : list float64 -> list nat)
  (df : DataFrame) (severity : list float64) (sol : Solution) :
  let out := collect_results sort_values_desc df severity sol in
  Normalized_Impact out
  = map (fun t => fdiv (fmul (Fin 100) t)
                    (Series_max (Total_Impact_Score out)))
      (Total_Impact_Score out).
Proof.
  cbn [collect_results Normalized_Impact Total_Impact_Score].
  unfold div_scalar, scalar_mul. now rewrite map_map.
Qed.

Lemma loc_index_map (f : nat -> float64) (n i : nat) :
  (i < n)%nat -> loc (map f (seq 0 n)) i = f i.
Proof.
  intros Hi. rewrite (loc_map _ _ 0%nat) by now rewrite length_seq.
  now rewrite seq_nth.
Qed.

Lemma fmul_zero_l (v : float64) :
  isfinite v = true -> fmul (of_int 0) v = Fin 0.
Proof.
  destruct v as [q| | |]; try discriminate. intros _.
  reflexivity.
Qed.

(** X14. A district that is allocated nothing has a total impact of 0,
    and its normalized impact is 0 whenever the maximum total impact is a
    finite number other than zero. *)
Theorem unallocated_district_has_no_impact
  (sort_values_desc : list float64 -> list nat) (df : DataFrame)
  (sol : Solution) (i : nat) :
  (i < length df)%nat ->
  isfinite (loc (Weighted_Severity df) i) = true ->
  varValue sol (x i) = 0 -> varValue sol (z i) = 0 ->
  let out := collect_results sort_values_desc df (Weighted_Severity df) sol in
  loc (Total_Impact_Score out) i = Fin 0 /\
  (forall m : Q,
     is_fin (Series_max (Total_Impact_Score out)) m -> ~ (m == 0)%Q ->
     loc (Normalized_Impact out) i = Fin 0).
Proof.
  intros Hi Hfin Hx Hz out.
  assert (Ht : loc (Total_Impact_Score out) i = Fin 0).
  { unfold out. rewrite impact_rows. unfold index.
    rewrite loc_index_map by exact Hi.
    rewrite Hx, Hz, !fmul_zero_l by exact Hfin. reflexivity. }
  split; [exact Ht |].
  intros m (m' & Em & Hm) Hnz.
  pose proof (normalized_rows sort_values_desc df (Weighted_Severity df) sol)
    as Hn. cbv zeta in Hn. fold out in Hn. rewrite Hn.
  rewrite loc_map_float
    by (unfold out; rewrite impact_length; exact Hi).
  rewrite Ht, Em. unfold fmul, fdiv.
  assert (Hs : Qsign m' <> Eq).
  { intros E. apply Qsign_Eq in E. apply Hnz. now rewrite <- Hm. }
  assert (Hq : Fin (Qred (Qred (100 * 0) / m')) = Fin 0).
  { reflexivity. }
  destruct (Qsign m'); [congruence | exact Hq | exact Hq].
Qed.

Lemma unallocated_district_has_no_impact_witness :
  loc (Total_Impact_Score
         (collect_results stable_sort_desc df_demo
            (Weighted_Severity df_demo)
            (mkSolution LpStatusOptimal
               (fun v => if Nat.eqb (key v) 6 then 0 else demo_allocation v))))
      6 = Fin 0.
Proof.
  apply (unallocated_district_has_no_impact stable_sort_desc df_demo
           (mkSolution LpStatusOptimal
              (fun v => if Nat.eqb (key v) 6 then 0 else demo_allocation v))
           6%nat).
  - simpl. lia.
  - reflexivity.
  - reflexivity.
  - reflexivity.
Defined.

(** ** A complete run on a well-formed table *)

Lemma severity_value_range (df : DataFrame) (r : Row) :
  Forall (fun r => 0 <= Killed r /\ 0 <= Injured r /\ 0 <= Accidents r) df ->
  positive_maxima df -> In r df ->
  (0 <= severity_value df r <= 1)%Q /\
  (Killed r = max_count Killed df -> (1 # 2 <= severity_value df r)%Q).
Proof.
  intros Hnn (HK & HI & HA) Hr.
  destruct (Series_max_column Killed df HK) as (_ & _ & BK).
  destruct (Series_max_column Injured df HI) as (_ & _ & BI).
  destruct (Series_max_column Accidents df HA) as (_ & _ & BA).
  rewrite Forall_forall in *.
  destruct (Hnn r Hr) as (Hk & Hi & Ha).
  destruct (ratio_in_unit_interval (Killed r) _ (conj Hk (BK r Hr)) HK)
    as (_ & Rk).
  destruct (ratio_in_unit_interval (Injured r) _ (conj Hi (BI r Hr)) HI)
    as (_ & Ri).
  destruct (ratio_in_unit_interval (Accidents r) _ (conj Ha (BA r Hr)) HA)
    as (_ & Ra).
  unfold severity_value. split; [split; lra |].
  intros E. rewrite E in *.
  assert (E1 : (inject_Z (max_count Killed df) / inject_Z (max_count Killed df)
                == 1)%Q)
    by (apply Qmult_inv_r; now apply inject_Z_nonzero).
  rewrite E1. lra.
Qed.

(** A product of an allocation with a severity between 0 and 1. *)
Lemma impact_row_range (px pz : Z) (s : float64) (q : Q) :
  0 <= px <= 50 -> 0 <= pz <= 40 -> is_fin s q -> (0 <= q <= 1)%Q ->
  exists t : Q,
    fadd (fmul (of_int px) s) (fmul (of_int pz) s) = Fin t /\
    (t == inject_Z (px + pz) * q)%Q /\ (0 <= t <= 90)%Q.
Proof.
  intros Hx Hz Hs Hq.
  destruct (is_fin_add _ _ _ _
              (is_fin_mul _ _ _ _ (is_fin_of_int px) Hs)
              (is_fin_mul _ _ _ _ (is_fin_of_int pz) Hs)) as (t & Et & Ht).
  exists t. split; [exact Et |].
  assert (Hsum : (t == inject_Z (px + pz) * q)%Q)
    by (rewrite Ht, inject_Z_plus; ring).
  split; [exact Hsum |].
  assert (H0 : (0 <= inject_Z (px + pz))%Q).
  { assert (H : 0 <= px + pz) by lia. now rewrite (Zle_Qle 0 _) in H. }
  assert (H90 : (inject_Z (px + pz) <= 90)%Q).
  { assert (H : px + pz <= 90) by lia. now rewrite (Zle_Qle _ 90) in H. }
  rewrite Hsum. split; nra.
Qed.

Section ValidRun.

Variable sort_values_desc : list float64 -> list nat.
Variable solve : LpProblem -> Solution.
Variable df : DataFrame.
Variable m : LpProblem.

Hypothesis sort_ok : sort_values_spec sort_values_desc.
Hypothesis solve_ok : solver_spec solve.
Hypothesis counts_ok :
  Forall (fun r => 0 <= Killed r /\ 0 <= Injured r /\ 0 <= Accidents r) df.
Hypothesis maxima_ok : positive_maxima df.
Hypothesis built :
  build_model sort_values_desc df (Weighted_Severity df) new_problem
  = Ok (tt, m).
Hypothesis optimal : status (solve m) = LpStatusOptimal.

Let severity : list float64 := Weighted_Severity df.
Let out : Output := collect_results sort_values_desc df severity (solve m).
Let px (i : nat) : Z := varValue (solve m) (x i).
Let pz (i : nat) : Z := varValue (solve m) (z i).

Lemma valid_severity (i : nat) :
  (i < length df)%nat ->
  exists q, is_fin (loc severity i) q /\ (0 <= q <= 1)%Q.
Proof.
  intros Hi. destruct (nth_error df i) as [r|] eqn:Er;
    [| apply nth_error_None in Er; lia].
  exists (severity_value df r). split; [now apply severity_at |].
  apply severity_value_range; trivial. eapply nth_error_In; eassumption.
Qed.

Lemma valid_allocation (i : nat) :
  (i < length df)%nat -> 0 <= px i <= 50 /\ 0 <= pz i <= 40.
Proof.
  intros Hi. unfold px, pz.
  pose proof (optimal_nonnegative sort_values_desc solve df m solve_ok built
                optimal i Hi).
  pose proof (optimal_caps sort_values_desc solve df m solve_ok built
                optimal i Hi).
  lia.
Qed.

Lemma valid_impact (i : nat) :
  (i < length df)%nat ->
  exists (t q : Q),
    loc (Total_Impact_Score out) i = Fin t /\
    is_fin (loc severity i) q /\
    (t == inject_Z (px i + pz i) * q)%Q /\ (0 <= t <= 90)%Q.
Proof.
  intros Hi. unfold out, severity. rewrite impact_rows. unfold index.
  rewrite loc_index_map by exact Hi.
  destruct (valid_severity i Hi) as (q & Hq & Rq).
  destruct (valid_allocation i Hi) as [Hx Hz].
  destruct (impact_row_range _ _ _ _ Hx Hz Hq Rq) as (t & Et & Ht & Rt).
  exists t, q. repeat split; trivial; apply Rt.
Qed.

(** The district ranked first by severity scores at least one half and is
    allocated at least one unit. *)
Lemma first_ranked_counts :
  exists (i : nat) (q : Q),
    (i < length df)%nat /\ is_fin (loc severity i) q /\ (1 # 2 <= q)%Q /\
    1 <= px i + pz i.
Proof.
  destruct maxima_ok as (HK & HI & HA).
  destruct (Series_max_column Killed df HK) as (_ & (rk & Hrk & Ek) & _).
  destruct (In_nth_error _ _ Hrk) as (k & Hk).
  assert (Hklt : (k < length df)%nat)
    by (apply nth_error_Some; congruence).
  pose proof (severity_at df k rk maxima_ok Hk) as Fk.
  destruct (severity_value_range df rk counts_ok maxima_ok Hrk) as [_ Hhalf].
  specialize (Hhalf Ek).
  destruct (sort_values_desc severity) as [|i rest] eqn:Es.
  { pose proof (sorted_labels_length _ sort_ok severity) as Hl.
    rewrite Es in Hl. unfold severity in Hl.
    rewrite Weighted_Severity_length in Hl. simpl in Hl. lia. }
  assert (Hi : (i < length df)%nat).
  { rewrite <- (Weighted_Severity_length df).
    apply (sorted_label_range _ sort_ok). fold severity.
    rewrite Es. now left. }
  destruct (valid_severity i Hi) as (q & Hq & Rq).
  exists i, q. split; [exact Hi |]. split; [exact Hq |]. split.
  - destruct (Nat.eq_dec k i) as [-> | Hne].
    + destruct Hq as (q1 & E1 & H1). destruct Fk as (q2 & E2 & H2).
      fold severity in E2. rewrite E1 in E2. injection E2 as ->.
      now rewrite <- H1, H2.
    + destruct (sort_ok severity) as [_ Hs]. rewrite Es in Hs.
      apply StronglySorted_inv in Hs. destruct Hs as [_ Hall].
      rewrite Forall_forall in Hall.
      assert (Hin : In k rest).
      { assert (H : In k (sort_values_desc severity)).
        { apply (sorted_label_range _ sort_ok). unfold severity.
          now rewrite Weighted_Severity_length. }
        rewrite Es in H. destruct H as [-> | H]; [congruence | exact H]. }
      specialize (Hall k Hin).
      destruct Hq as (q1 & E1 & H1). destruct Fk as (q2 & E2 & H2).
      fold severity in E2. rewrite E1, E2 in Hall. simpl in Hall.
      apply Qle_bool_iff in Hall. rewrite <- H1. rewrite H2 in Hall.
      now apply Qle_trans with (severity_value df rk).
  - destruct (build_model_constraints _ _ _ _ built) as (j & Hj & Em).
    destruct (Nat.eq_dec i j) as [-> | Hne].
    + pose proof (optimal_jaipur sort_values_desc solve df m solve_ok built
                    optimal j Hj).
      pose proof (valid_allocation j Hi). unfold px, pz in *. lia.
    + assert (Hpr : In i (top5_excluding_jaipur sort_values_desc
                            (Weighted_Severity df) j)).
      { unfold top5_excluding_jaipur. apply excluding_In.
        split; [| exact Hne]. unfold top5. fold severity. rewrite Es.
        simpl. now left. }
      destruct (constraint_set_priority df _ j i Hpr) as [Hmin _].
      rewrite <- Em in Hmin.
      pose proof (feasible_constraint _ _ _ (solve_ok m optimal) Hmin) as C.
      unfold satisfies, Top5_Min_Resource in C. cbn [sense lhs rhs] in C.
      rewrite eval_pair in C. apply Z.leb_le in C. exact C.
Qed.

(** X15. On a table with non-negative counts and a positive maximum in
    each count column, a run in which the solver reports [Optimal] yields
    a result table without [NaN] or infinities: every total impact is a
    finite number between 0 and 90, the maximum total impact is positive,
    so that the normalization never divides by zero, and every normalized
    impact is a finite number that is not negative. *)
Theorem valid_run_has_finite_results :
  exists o : Output,
    run_script sort_values_desc solve df = Ok o /\
    (exists t : Q,
       is_fin (Series_max (Total_Impact_Score o)) t /\ (0 < t <= 90)%Q) /\
    Forall (fun v => exists t : Q, v = Fin t /\ (0 <= t <= 90)%Q)
      (Total_Impact_Score o) /\
    Forall (fun v => exists t : Q, v = Fin t /\ (0 <= t)%Q)
      (Normalized_Impact o).
Proof.
  exists out. split; [now apply run_script_built |].
  assert (Hlen : length (Total_Impact_Score out) = length df)
    by apply impact_length.
  assert (Hall : forall v, In v (Total_Impact_Score out) ->
                   exists t : Q, v = Fin t /\ (0 <= t <= 90)%Q).
  { intros v Hv. destruct (In_loc _ _ Hv) as (i & Hi & <-).
    rewrite Hlen in Hi.
    destruct (valid_impact i Hi) as (t & q & Et & _ & _ & Rt).
    now exists t. }
  assert (Hmax : exists t : Q,
            is_fin (Series_max (Total_Impact_Score out)) t /\
            (0 < t <= 90)%Q).
  { destruct first_ranked_counts as (i & q & Hi & Hq & Hhalf & Hone).
    destruct (valid_impact i Hi) as (t & q' & Et & Hq' & Ht & Rt).
    assert (Hqq : (q' == q)%Q).
    { destruct Hq as (a & Ea & Ha). destruct Hq' as (b & Eb & Hb).
      rewrite Ea in Eb. injection Eb as ->. now rewrite <- Ha, <- Hb. }
    assert (Hpos : (1 # 2 <= t)%Q).
    { rewrite Ht, Hqq.
      assert (H1 : (1 <= inject_Z (px i + pz i))%Q)
        by (now rewrite (Zle_Qle 1 _) in Hone).
      nra. }
    destruct (Series_max_spec (Total_Impact_Score out))
      as [[Hnan _] | (Hin & _ & Hub)].
    - rewrite Forall_forall in Hnan.
      assert (Hi' : (i < length (Total_Impact_Score out))%nat)
        by now rewrite Hlen.
      rewrite (Hnan _ (loc_In _ _ Hi')) in Et. discriminate.
    - destruct (Hall _ Hin) as (tm & Em & Rm).
      exists tm. split; [rewrite Em; apply is_fin_Fin |].
      assert (Hi' : (i < length (Total_Impact_Score out))%nat)
        by now rewrite Hlen.
      specialize (Hub _ (loc_In _ _ Hi')). rewrite Et, Em in Hub.
      specialize (Hub eq_refl). simpl in Hub. apply Qle_bool_iff in Hub.
      split; [| apply Rm]. apply Qlt_le_trans with (1 # 2); [reflexivity |].
      now apply Qle_trans with t. }
  split; [exact Hmax |].
  split; [now apply Forall_forall |].
  pose proof (normalized_rows sort_values_desc df severity (solve m)) as Hn.
  cbv zeta in Hn. fold out in Hn. rewrite Hn, Forall_map.
  apply Forall_forall. intros v Hv.
  destruct (Hall v Hv) as (t & -> & Rt).
  destruct Hmax as (tm & Hm & Rm).
  assert (Hnz : ~ (tm == 0)%Q).
  { intros E. destruct Rm as [Rm _]. rewrite E in Rm.
    now apply Qlt_irrefl in Rm. }
  destruct (is_fin_div _ _ _ _
              (is_fin_mul _ _ _ _ (is_fin_Fin 100) (is_fin_Fin t)) Hm Hnz)
    as (d & Ed & Hd).
  exists d. split; [exact Ed |]. rewrite Hd.
  apply Qle_shift_div_l; [apply Rm |]. rewrite Qmult_0_l.
  destruct Rt as [Rt _]. nra.
Qed.

End ValidRun.

Lemma valid_run_has_finite_results_witness :
  exists o : Output,
    run_script stable_sort_desc (checking_solver demo_allocation) df_demo
      = Ok o /\
    (exists t : Q,
       is_fin (Series_max (Total_Impact_Score o)) t /\ (0 < t <= 90)%Q) /\
    Forall (fun v => exists t : Q, v = Fin t /\ (0 <= t <= 90)%Q)
      (Total_Impact_Score o) /\
    Forall (fun v => exists t : Q, v = Fin t /\ (0 <= t)%Q)
      (Normalized_Impact o).
Proof.
  eapply valid_run_has_finite_results.
  - apply stable_sort_desc_spec.
  - apply checking_solver_spec.
  - repeat constructor; simpl; lia.
  - repeat split.
  - vm_compute. reflexivity.
  - vm_compute. reflexivity.
Defined.

(** ** The size of the priority set *)

(** X16. The priority set never contains the exempt district and never
    has more than five members, whatever the ranking.  With a ranking that
    lists every district once, it is exactly the five highest-ranked
    districts (all districts on a smaller table) whenever the exempt
    district is not among them. *)
Theorem priority_set_when_exempt_ranks_low
  (sort_values_desc : list float64 -> list nat) (severity : list float64)
  (jaipur_idx : nat) :
  let priority :=
    top5_excluding_jaipur sort_values_desc severity jaipur_idx in
  ~ In jaipur_idx priority /\
  (length priority <= 5)%nat /\
  (sort_values_spec sort_values_desc ->
   ~ In jaipur_idx (top5 sort_values_desc severity) ->
   priority = top5 sort_values_desc severity /\
   length priority = Nat.min 5 (length severity)).
Proof.
  intros priority. split.
  - unfold priority, top5_excluding_jaipur. rewrite excluding_In. tauto.
  - split; [apply priority_at_most_five |].
    intros Hsort Hout.
    assert (E : priority = top5 sort_values_desc severity)
      by (apply excluding_absent; exact Hout).
    split; [exact E |]. rewrite E. now apply top5_length.
Qed.

Lemma priority_set_when_exempt_ranks_low_witness :
  hd_error (jaipur_labels (mkRow "Jaipur" 1 1 1 :: tl df_ties)) = Some 0%nat /\
  top5_excluding_jaipur stable_sort_desc
    (Weighted_Severity (mkRow "Jaipur" 1 1 1 :: tl df_ties)) 0
  = top5 stable_sort_desc
      (Weighted_Severity (mkRow "Jaipur" 1 1 1 :: tl df_ties)).
Proof.
  split; [reflexivity |].
  apply (proj2 (proj2 (priority_set_when_exempt_ranks_low stable_sort_desc
                         (Weighted_Severity
                            (mkRow "Jaipur" 1 1 1 :: tl df_ties)) 0%nat))
           stable_sort_desc_spec).
  vm_compute. intuition discriminate.
Defined.
